(** * OrbisCast IPTV ingestion: XMLTV parser, playlist pairing,
      channel reconciliation and the refresh orchestrator.

    Shallow embedding of [src/modules/iptv/index.ts] and
    [src/modules/iptv/parsers/xmltv-parser.ts].

    Conventions of the embedding.
    - A JavaScript string is a [string]; its characters are the code units
      below 256.  An empty string is the only falsy string.
    - A JavaScript number that holds an integer is a [JsNumber]: a double
      whose value is the integer [z], or one of the non-finite values.
    - [undefined] / [null] are [None].
    - An object of the tree built by xml2js is an [XmlNode].
    - Objects that are mutated while shared (channel records inside the
      reconciliation map) live in a heap and are named by references.
    - Awaited collaborator calls (store, cache, fetcher, scheduler, file
      write) act on an explicit [World] and append to its event trace; a
      rejected await that is not caught ends the caller. *)

From Stdlib Require Import ZArith String Ascii List Bool Lia DecimalString.
From Stdlib Require Import DecimalZ DecimalPos.
From stdpp Require Import base list strings gmap.

Local Open Scope string_scope.
Local Open Scope list_scope.

(* ===================================================================== *)
(** ** JavaScript strings *)
(* ===================================================================== *)

Module JsString.

(** [!!s] for a string. *)
Definition truthy (s : string) : bool := negb (String.eqb s "").

(** [a || b] on strings. *)
Definition or_else (a b : string) : string := if truthy a then a else b.

(** [s.startsWith(p)]. *)
Definition startsWith (s p : string) : bool := String.prefix p s.

Definition code (c : ascii) : N := N_of_ascii c.

(** White space and line terminators removed by [trim] and skipped by
    [parseInt] (those with a code unit below 256). *)
Definition is_space (c : ascii) : bool :=
  let n := code c in
  ((9 <=? n) && (n <=? 13) || (n =? 32) || (n =? 160))%N.

(** The class [\d]. *)
Definition is_digit (c : ascii) : bool :=
  let n := code c in ((48 <=? n) && (n <=? 57))%N.

Fixpoint trimStart (s : string) : string :=
  match s with
  | String c r => if is_space c then trimStart r else s
  | EmptyString => EmptyString
  end.

Fixpoint trimEnd (s : string) : string :=
  match s with
  | EmptyString => EmptyString
  | String c r =>
      let r' := trimEnd r in
      if is_space c && negb (truthy r') then EmptyString else String c r'
  end.

(** [s.trim()]. *)
Definition trim (s : string) : string := trimEnd (trimStart s).

(** [s.split(sep)] for a one-character separator. *)
Fixpoint split (sep : ascii) (s : string) : list string :=
  match s with
  | EmptyString => [EmptyString]
  | String c r =>
      if Ascii.eqb c sep then EmptyString :: split sep r
      else match split sep r with
           | h :: t => String c h :: t
           | [] => [String c EmptyString]
           end
  end.

(** [/^\d+$/.test(s)]. *)
Fixpoint all_digits (s : string) : bool :=
  match s with
  | EmptyString => true
  | String c r => is_digit c && all_digits r
  end.

Definition is_numeric (s : string) : bool := truthy s && all_digits s.

(** Longest prefix of digits, and what follows it. *)
Fixpoint span_digits (s : string) : string * string :=
  match s with
  | String c r =>
      if is_digit c
      then let '(d, rest) := span_digits r in (String c d, rest)
      else (EmptyString, s)
  | EmptyString => (EmptyString, EmptyString)
  end.

Fixpoint drop (n : nat) (s : string) : string :=
  match n, s with
  | S k, String _ r => drop k r
  | _, _ => s
  end.

(** [s.replace(pat, rep)] for a string pattern: only the first occurrence
    is replaced.  [rep] is inserted literally, which is what JavaScript
    does when [rep] holds no dollar sign. *)
Fixpoint replace (pat rep : string) (s : string) : string :=
  if String.prefix pat s then rep +:+ drop (String.length pat) s
  else match s with
       | EmptyString => EmptyString
       | String c r => String c (replace pat rep r)
       end.

(** Decimal rendering of an integer inside a template literal. *)
Definition of_Z (z : Z) : string := NilEmpty.string_of_int (Z.to_int z).

End JsString.

(* ===================================================================== *)
(** ** JavaScript numbers holding integers *)
(* ===================================================================== *)

Module JsNum.

Inductive JsNumber : Type :=
| Num (z : Z)
| NaN
| PosInf
| NegInf.

(** The double nearest to the integer [z] (ties to even); integers of
    magnitude below 2^53 are exact. *)
Definition round_to_double (z : Z) : JsNumber :=
  let a := Z.abs z in
  if (a <? 2 ^ 53)%Z then Num z
  else
    let e := (Z.log2 a - 52)%Z in
    let q := Z.shiftr a e in
    let r := (a - Z.shiftl q e)%Z in
    let half := Z.shiftl 1 (e - 1) in
    let q' := if (half <? r)%Z || ((r =? half)%Z && Z.odd q)
              then (q + 1)%Z else q in
    let v := Z.shiftl q' e in
    if (2 ^ 1024 <=? v)%Z
    then (if (z <? 0)%Z then NegInf else PosInf)
    else Num (Z.sgn z * v).

(** Value of a string of decimal digits, most significant first. *)
Fixpoint digits_value (acc : Z) (s : string) : Z :=
  match s with
  | EmptyString => acc
  | String c r =>
      digits_value (10 * acc + (Z.of_N (JsString.code c) - 48))%Z r
  end.

(** [parseInt(s, 10)]: leading white space is skipped, an optional sign
    is read, then the longest run of digits; [NaN] when there is none.
    The result is the double nearest to the integer read (beyond twenty
    significant digits ECMAScript leaves the approximation to the engine).
    The result [-0] is identified with [0]. *)
Definition parseInt (s : string) : JsNumber :=
  let s1 := JsString.trimStart s in
  let '(neg, s2) :=
    match s1 with
    | String "-"%char r => (true, r)
    | String "+"%char r => (false, r)
    | _ => (false, s1)
    end in
  let '(ds, _) := JsString.span_digits s2 in
  if JsString.truthy ds
  then let v := digits_value 0 ds in
       round_to_double (if neg then (- v)%Z else v)
  else NaN.

Definition isNaN (n : JsNumber) : bool :=
  match n with NaN => true | _ => false end.

(** [n + 1]. *)
Definition succ (n : JsNumber) : JsNumber :=
  match n with
  | Num z => round_to_double (z + 1)
  | other => other
  end.

(** [!n] for a possibly undefined number. *)
Definition falsy (n : option JsNumber) : bool :=
  match n with
  | None => true
  | Some (Num z) => (z =? 0)%Z
  | Some NaN => true
  | Some _ => false
  end.

End JsNum.

Export JsNum(JsNumber, Num, NaN, PosInf, NegInf).

(* ===================================================================== *)
(** ** The tree produced by xml2js *)
(* ===================================================================== *)

(** An element without attributes and children is a bare string (the empty
    string for an empty element); every other element is an object with an
    optional attribute object [$], an optional text payload [_], and one
    array per child element name. *)
#[warnings="-register-all"]
Inductive XmlNode : Type :=
| XText (s : string)
| XElem (attrs : option (list (string * string)))
        (text : option string)
        (children : list (string * list XmlNode)).

Module Xml.

Fixpoint assoc {A : Type} (k : string) (l : list (string * A)) : option A :=
  match l with
  | [] => None
  | (k', v) :: r => if String.eqb k k' then Some v else assoc k r
  end.

(** [node.$] *)
Definition dollar (n : XmlNode) : option (list (string * string)) :=
  match n with
  | XElem a _ _ => a
  | XText _ => None
  end.

(** [node.$?.k] *)
Definition attr (n : XmlNode) (k : string) : option string :=
  match dollar n with
  | Some a => assoc k a
  | None => None
  end.

(** [node._] *)
Definition payload (n : XmlNode) : option string :=
  match n with
  | XElem _ t _ => t
  | XText _ => None
  end.

(** [node[k]] for a child element name. *)
Definition child (n : XmlNode) (k : string) : option (list XmlNode) :=
  match n with
  | XElem _ _ cs => assoc k cs
  | XText _ => None
  end.

(** [node[k]?.[0]] *)
Definition first_child (n : XmlNode) (k : string) : option XmlNode :=
  match child n k with
  | Some (x :: _) => Some x
  | _ => None
  end.

(** [node[k]?.[0]?.$?.src || ''] *)
Definition first_child_src (n : XmlNode) (k : string) : string :=
  match first_child n k with
  | Some x => match attr x "src" with Some s => s | None => "" end
  | None => ""
  end.

End Xml.

(* ===================================================================== *)
(** ** Entities ([interfaces/iptv]) *)
(* ===================================================================== *)

Record ChannelEntry : Type := mkChannel {
  xui_id : JsNumber;
  tvg_id : string;
  tvg_name : string;
  tvg_logo : string;
  group_title : string;
  url : string;
  created_at : string;
  country : string
}.

Record ProgrammeEntry : Type := mkProgramme {
  start : string;
  stop : string;
  start_timestamp : Z;
  stop_timestamp : Z;
  channel : option string;
  title : string;
  description : string;
  category : string;
  subtitle : string;
  episode_num : string;
  season : option JsNumber;
  episode : option JsNumber;
  icon : string;
  image : string;
  date : string;
  previously_shown : bool;
  p_created_at : string
}.

(** Result of a call that may throw. *)
Inductive Completion (A : Type) : Type :=
| Returned (a : A)
| Thrown (msg : string).
Arguments Returned {A} a.
Arguments Thrown {A} msg.

(* ===================================================================== *)
(** ** Configuration and runtime services *)
(* ===================================================================== *)

(** [utils/config]: the three settings read by this subsystem.  A setting
    that is not configured is [None]. *)
Record Config : Type := mkConfig {
  XMLTV : string;
  PLAYLIST : option string;
  STREAM_BASE_URL : option string
}.

(** Services used by the parsers whose code is outside the two modelled
    files: the wall clock, the date helper of [iptv/utils], the built-in
    rendering of a time value, the xml2js parser and the playlist line
    parser.
    - [now] is the text of [new Date().toISOString()].
    - [parseDate s] is the time value (milliseconds) of the date read from
      [s]; [None] when no valid date results, in which case producing the
      ISO text raises.
    - [parseString] is [parseStringPromise]: the name of the root element
      and its node, [None] when the promise rejects or yields no root. *)
Record Runtime : Type := mkRuntime {
  config : Config;
  now : string;
  parseDate : string -> option Z;
  toISOString : Z -> string;
  parseString : string -> option (string * XmlNode);
  fromPlaylistLine : string -> ChannelEntry
}.

(** [!!o] for an optional string. *)
Definition truthy_opt (o : option string) : bool :=
  match o with
  | Some s => JsString.truthy s
  | None => false
  end.

(* ===================================================================== *)
(** ** parsers/xmltv-parser.ts *)
(* ===================================================================== *)

Record XMLTVData : Type := mkXMLTVData {
  channels : list ChannelEntry;
  programmes : list ProgrammeEntry
}.

(** [extractTextContent(element)] *)
Definition extractTextContent (element : option XmlNode) : string :=
  match element with
  | None => ""
  | Some (XText s) => s
  | Some (XElem _ (Some t) _) => t
  | Some (XElem _ None _) => ""
  end.

(** One turn of the loop over the display names of a channel; the state is
    [(tvgName, channelNumber)]. *)
Definition displayName_step (st : string * string) (displayName : XmlNode)
  : string * string :=
  let '(tvgName, channelNumber) := st in
  let name := extractTextContent (Some displayName) in
  let tvgName' := if negb (JsString.truthy tvgName) then name else tvgName in
  let channelNumber' :=
    if JsString.is_numeric name && negb (JsString.truthy channelNumber)
    then name else channelNumber in
  (tvgName', channelNumber').

(** [channel['display-name'] || []] *)
Definition displayNames_of (channel : XmlNode) : list XmlNode :=
  match Xml.child channel "display-name" with
  | Some l => l
  | None => []
  end.

(** [parseChannelEntry(channel)].  On a tree built by xml2js no access in
    its body raises, so the model returns the record directly. *)
Definition parseChannelEntry (rt : Runtime) (channel : XmlNode) : ChannelEntry :=
  let channelId :=
    match Xml.attr channel "id" with Some i => i | None => "" end in
  let '(tvgName, channelNumber) :=
    fold_left displayName_step (displayNames_of channel) ("", "") in
  let iconSrc := Xml.first_child_src channel "icon" in
  let streamUrl :=
    match STREAM_BASE_URL (config rt) with
    | Some base =>
        if JsString.truthy base && JsString.truthy channelNumber
        then JsString.replace "{channel}" channelNumber base
        else ""
    | None => ""
    end in
  {| xui_id := if JsString.truthy channelNumber
               then JsNum.parseInt channelNumber else Num 0;
     tvg_id := channelId;
     tvg_name := tvgName;
     tvg_logo := iconSrc;
     group_title := "";
     url := streamUrl;
     created_at := now rt;
     country := "" |}.

(** [value.match(/S(\d+)E(\d+)/i)] tried at the head of [s]: the two
    captured digit runs. *)
Definition onscreen_at (s : string) : option (string * string) :=
  match s with
  | String c r =>
      if Ascii.eqb c "S" || Ascii.eqb c "s" then
        let '(d1, r1) := JsString.span_digits r in
        if JsString.truthy d1 then
          match r1 with
          | String e r2 =>
              if Ascii.eqb e "E" || Ascii.eqb e "e" then
                let '(d2, _) := JsString.span_digits r2 in
                if JsString.truthy d2 then Some (d1, d2) else None
              else None
          | EmptyString => None
          end
        else None
      else None
  | EmptyString => None
  end.

(** The leftmost match of the pattern anywhere in [s]. *)
Fixpoint onscreenMatch (s : string) : option (string * string) :=
  match onscreen_at s with
  | Some m => Some m
  | None =>
      match s with
      | String _ r => onscreenMatch r
      | EmptyString => None
      end
  end.

Record EpisodeInfo : Type := mkEpisodeInfo {
  episodeNum : string;
  ep_season : option JsNumber;
  ep_episode : option JsNumber
}.

(** Body of the loop of [parseEpisodeNumber] for one [episode-num]
    element. *)
Definition episodeNum_step (st : EpisodeInfo) (epNum : XmlNode) : EpisodeInfo :=
  let system := Xml.attr epNum "system" in
  let value := extractTextContent (Some epNum) in
  match system with
  | Some sys =>
      if String.eqb sys "onscreen" then
        match onscreenMatch value with
        | Some (m1, m2) =>
            {| episodeNum := value;
               ep_season := Some (JsNum.parseInt m1);
               ep_episode := Some (JsNum.parseInt m2) |}
        | None =>
            {| episodeNum := value;
               ep_season := ep_season st;
               ep_episode := ep_episode st |}
        end
      else if String.eqb sys "xmltv_ns" && JsNum.falsy (ep_season st) then
        match JsString.split "." value with
        | p0 :: p1 :: _ =>
            if JsString.truthy p0 && JsString.truthy p1 then
              let seasonPart := JsNum.parseInt p0 in
              let episodePart := JsNum.parseInt p1 in
              {| episodeNum := episodeNum st;
                 ep_season := if negb (JsNum.isNaN seasonPart)
                              then Some (JsNum.succ seasonPart)
                              else ep_season st;
                 ep_episode := if negb (JsNum.isNaN episodePart)
                               then Some (JsNum.succ episodePart)
                               else ep_episode st |}
            else st
        | _ => st
        end
      else st
  | None => st
  end.

(** [parseEpisodeNumber(episodeNumElements)] *)
Definition parseEpisodeNumber (episodeNumElements : option (list XmlNode))
  : EpisodeInfo :=
  let init := {| episodeNum := ""; ep_season := None; ep_episode := None |} in
  match episodeNumElements with
  | None => init
  | Some elems => fold_left episodeNum_step elems init
  end.

(** [parseProgrammeEntry(programme)].  It throws when the attribute object
    is missing, when [start] or [stop] is missing or empty, and when a date
    has no valid time value. *)
Definition parseProgrammeEntry (rt : Runtime) (programme : XmlNode)
  : Completion ProgrammeEntry :=
  let title := extractTextContent (Xml.first_child programme "title") in
  let description := extractTextContent (Xml.first_child programme "desc") in
  let category := extractTextContent (Xml.first_child programme "category") in
  let subtitle := extractTextContent (Xml.first_child programme "sub-title") in
  let ep := parseEpisodeNumber (Xml.child programme "episode-num") in
  let icon := Xml.first_child_src programme "icon" in
  let image := extractTextContent (Xml.first_child programme "image") in
  let date := extractTextContent (Xml.first_child programme "date") in
  let previouslyShown :=
    match Xml.child programme "previously-shown" with
    | Some _ => true
    | None => false
    end in
  match Xml.dollar programme with
  | None => Thrown "TypeError: Cannot read properties of undefined"
  | Some attrs =>
      let startStr := Xml.assoc "start" attrs in
      let stopStr := Xml.assoc "stop" attrs in
      match startStr, stopStr with
      | Some startS, Some stopS =>
          if JsString.truthy startS && JsString.truthy stopS then
            match parseDate rt startS, parseDate rt stopS with
            | Some start, Some stop =>
                Returned
                  {| start := toISOString rt start;
                     stop := toISOString rt stop;
                     start_timestamp := (start / 1000)%Z;
                     stop_timestamp := (stop / 1000)%Z;
                     channel := Xml.assoc "channel" attrs;
                     title := title;
                     description := description;
                     category := category;
                     subtitle := subtitle;
                     episode_num := episodeNum ep;
                     season := ep_season ep;
                     episode := ep_episode ep;
                     icon := icon;
                     image := image;
                     date := date;
                     previously_shown := previouslyShown;
                     p_created_at := now rt |}
            | _, _ => Thrown "RangeError: Invalid time value"
            end
          else Thrown ("Programme missing start/stop times: " +:+ title)
      | _, _ => Thrown ("Programme missing start/stop times: " +:+ title)
      end
  end.

(** The [for] loop with its [try]/[catch]: a parsed element is pushed, a
    throwing one is logged and skipped. *)
Definition programme_loop (rt : Runtime) (elems : list XmlNode)
  : list ProgrammeEntry :=
  fold_left
    (fun programmes programme =>
       match parseProgrammeEntry rt programme with
       | Returned parsedProgramme => programmes ++ [parsedProgramme]
       | Thrown _ => programmes
       end)
    elems [].

Definition channel_loop (rt : Runtime) (elems : list XmlNode)
  : list ChannelEntry :=
  fold_left (fun acc ch => acc ++ [parseChannelEntry rt ch]) elems [].

(** [parsedXml.tv]: the node of the root element when it is named [tv]. *)
Definition tv_of (parsedXml : string * XmlNode) : option XmlNode :=
  if String.eqb (fst parsedXml) "tv" then Some (snd parsedXml) else None.

(** [tv.programme] when it is a non-empty array. *)
Definition elements_of (tv : XmlNode) (name : string) : list XmlNode :=
  match Xml.child tv name with
  | Some l => l
  | None => []
  end.

(** [parseXMLTVFull(filePath)] on a file system [files].  A failed read, a
    rejected parse and a missing [tv] root all end in the outer [catch],
    which leaves the result empty. *)
Definition parseXMLTVFull (rt : Runtime) (files : gmap string string)
  (filePath : string) : XMLTVData :=
  let empty := {| channels := []; programmes := [] |} in
  match files !! filePath with
  | None => empty
  | Some xmlContent =>
      match parseString rt xmlContent with
      | None => empty
      | Some parsedXml =>
          match tv_of parsedXml with
          | None => empty
          | Some tv =>
              {| channels := channel_loop rt (elements_of tv "channel");
                 programmes := programme_loop rt (elements_of tv "programme") |}
          end
      end
  end.

(** [parseXMLTV(filePath)]: the programmes only. *)
Definition parseXMLTV (rt : Runtime) (files : gmap string string)
  (filePath : string) : list ProgrammeEntry :=
  match files !! filePath with
  | None => []
  | Some xmlContent =>
      match parseString rt xmlContent with
      | None => []
      | Some parsedXml =>
          match tv_of parsedXml with
          | None => []
          | Some tv => programme_loop rt (elements_of tv "programme")
          end
      end
  end.

(* ===================================================================== *)
(** ** The world the orchestrator acts on *)
(* ===================================================================== *)

(** One entry per awaited collaborator call, in the order of the calls. *)
Inductive Event : Type :=
| EvIsProgrammeDataStale
| EvGetCachedFile (name : string)
| EvFetchWithRetry (source name : string)
| EvGetCachedFilePath (name : string)
| EvWriteFile (path : string)
| EvParseXMLTVFull (path : string)
| EvParseXMLTV (path : string)
| EvGetChannelEntries
| EvClearChannels
| EvAddChannels (entries : list ChannelEntry)
| EvClearProgrammes
| EvAddProgrammes (entries : list ProgrammeEntry)
| EvClearCache
| EvScheduleIPTVRefresh.

(** What the collaborators hold: the two stores, the file system, and
    counters for the purges of the file cache and the armings of the
    scheduler. *)
Record State : Type := mkState {
  store_channels : list ChannelEntry;
  store_programmes : list ProgrammeEntry;
  fs_files : gmap string string;
  cache_purges : nat;
  scheduler_arms : nat
}.

Record World : Type := mkWorld {
  state : State;
  trace : list Event
}.

(** How a call of [fs.writeFile] ends: the promise resolves and the file
    holds the content, or it rejects.  After a rejected write the file is
    as it was ([None]) or holds what had been written of it ([Some]). *)
Inductive WriteOutcome : Type :=
| Written
| Rejected (remains : option string).

(** Collaborators whose answers depend on things outside the model (the
    network, the cache directory, the age of the stored programmes, the
    disk).  The four functions of the repository return a value and raise
    nothing, as their contracts state; [writeFileOutcome path content] is
    how [fs.writeFile(path, content)] ends. *)
Record Collaborators : Type := mkCollaborators {
  isProgrammeDataStale : State -> bool;
  getCachedFile : string -> State -> option string;
  fetchWithRetry : string -> string -> State -> option string;
  getCachedFilePath : string -> State -> option string;
  writeFileOutcome : string -> string -> State -> WriteOutcome
}.

(** Computations on the world: an awaited call returns a value or rejects,
    and a rejection that no [try] catches ends the caller too. *)
Definition M (A : Type) : Type := World -> Completion A * World.

Definition ret {A : Type} (a : A) : M A := fun w => (Returned a, w).

Definition bind {A B : Type} (m : M A) (k : A -> M B) : M B :=
  fun w =>
    let '(c, w') := m w in
    match c with
    | Returned a => k a w'
    | Thrown msg => (Thrown msg, w')
    end.

Notation "x <- m ;; k" := (bind m (fun x => k))
  (at level 100, m at next level, right associativity).
Notation "m ;;; k" := (bind m (fun _ => k))
  (at level 100, right associativity).

(** The world a computation leaves, whether it returned or rejected. *)
Definition exec {A : Type} (m : M A) (w : World) : World := snd (m w).

(** How a computation ends. *)
Definition outcome {A : Type} (m : M A) (w : World) : Completion A :=
  fst (m w).

(** Record a collaborator call. *)
Definition emit (e : Event) : M unit :=
  fun w => (Returned tt, {| state := state w; trace := trace w ++ [e] |}).

(** Read from the collaborators' state. *)
Definition ask {A : Type} (f : State -> A) : M A :=
  fun w => (Returned (f (state w)), w).

(** Change the collaborators' state. *)
Definition modify (g : State -> State) : M unit :=
  fun w => (Returned tt, {| state := g (state w); trace := trace w |}).

(** An awaited call that returns a value. *)
Definition call {A : Type} (e : Event) (f : State -> A) : M A :=
  emit e ;;; ask f.

Definition set_channels (l : list ChannelEntry) (s : State) : State :=
  {| store_channels := l;
     store_programmes := store_programmes s;
     fs_files := fs_files s;
     cache_purges := cache_purges s;
     scheduler_arms := scheduler_arms s |}.

Definition set_programmes (l : list ProgrammeEntry) (s : State) : State :=
  {| store_channels := store_channels s;
     store_programmes := l;
     fs_files := fs_files s;
     cache_purges := cache_purges s;
     scheduler_arms := scheduler_arms s |}.

Definition set_file (path content : string) (s : State) : State :=
  {| store_channels := store_channels s;
     store_programmes := store_programmes s;
     fs_files := <[path := content]> (fs_files s);
     cache_purges := cache_purges s;
     scheduler_arms := scheduler_arms s |}.

Definition count_purge (s : State) : State :=
  {| store_channels := store_channels s;
     store_programmes := store_programmes s;
     fs_files := fs_files s;
     cache_purges := S (cache_purges s);
     scheduler_arms := scheduler_arms s |}.

Definition count_arm (s : State) : State :=
  {| store_channels := store_channels s;
     store_programmes := store_programmes s;
     fs_files := fs_files s;
     cache_purges := cache_purges s;
     scheduler_arms := S (scheduler_arms s) |}.

(** Modelled from the spec: the store of [modules/database] is absent from
    the sources; section 6 gives it clear and bulk-insert operations per
    entity type and a listing of the channel records. *)
Definition clearChannels : M unit :=
  emit EvClearChannels ;;; modify (set_channels []).

(** Modelled from the spec: bulk insert of channel records (section 6). *)
Definition addChannels (entries : list ChannelEntry) : M unit :=
  emit (EvAddChannels entries) ;;;
  modify (fun s => set_channels (store_channels s ++ entries) s).

(** Modelled from the spec: clearing of the programme records (section 6). *)
Definition clearProgrammes : M unit :=
  emit EvClearProgrammes ;;; modify (set_programmes []).

(** Modelled from the spec: bulk insert of programme records (section 6). *)
Definition addProgrammes (entries : list ProgrammeEntry) : M unit :=
  emit (EvAddProgrammes entries) ;;;
  modify (fun s => set_programmes (store_programmes s ++ entries) s).

(** Modelled from the spec: listing of the stored channel records
    (section 6); every call yields fresh objects. *)
Definition getChannelEntries : M (list ChannelEntry) :=
  call EvGetChannelEntries store_channels.

(** Modelled from the spec: [clearCache] of [utils/cache] purges the local
    file cache (section 6); the model counts the purges. *)
Definition clearCache : M unit :=
  emit EvClearCache ;;; modify count_purge.

(** Modelled from the spec: [scheduleIPTVRefresh] of [iptv/schedulers] arms
    the periodic forced refresh (section 6); the model counts the calls. *)
Definition scheduleIPTVRefresh : M unit :=
  emit EvScheduleIPTVRefresh ;;; modify count_arm.

(** [fs.writeFile(path, content)]: the call is made; when it resolves the
    file holds the content, when it rejects the exception is raised. *)
Definition writeFile (co : Collaborators) (path content : string) : M unit :=
  emit (EvWriteFile path) ;;;
  fun w =>
    match writeFileOutcome co path content (state w) with
    | Written =>
        (Returned tt,
         {| state := set_file path content (state w); trace := trace w |})
    | Rejected remains =>
        (Thrown "fs.writeFile rejected",
         {| state := match remains with
                     | Some partial => set_file path partial (state w)
                     | None => state w
                     end;
            trace := trace w |})
    end.

(* ===================================================================== *)
(** ** The reconciliation map and its objects *)
(* ===================================================================== *)

(** A reference to a channel object; the heap maps references to the
    current content of the objects. *)
Abbreviation Ref := nat (only parsing).

(** A JavaScript [Map] from strings to channel objects: the entries in
    insertion order, at most one per key. *)
Definition ChannelMap : Type := list (string * Ref).

(** [map.get(k)] *)
Fixpoint map_get (k : string) (m : ChannelMap) : option Ref :=
  match m with
  | [] => None
  | (k', v) :: rest => if String.eqb k k' then Some v else map_get k rest
  end.

(** [map.set(k, v)]: an existing key keeps its place and takes the new
    value, a new key goes last. *)
Fixpoint map_set (k : string) (v : Ref) (m : ChannelMap) : ChannelMap :=
  match m with
  | [] => [(k, v)]
  | (k', v') :: rest =>
      if String.eqb k k' then (k, v) :: rest else (k', v') :: map_set k v rest
  end.

(** [map.values()] *)
Definition map_values (m : ChannelMap) : list Ref := map snd m.

Definition map_keys (m : ChannelMap) : list string := map fst m.

(** [array.indexOf(o)] on an array of objects: the first position that
    holds the same object, [-1] when there is none. *)
Fixpoint indexOf (l : list Ref) (o : Ref) : Z :=
  match l with
  | [] => (-1)%Z
  | x :: rest =>
      if Nat.eqb x o then 0%Z
      else let i := indexOf rest o in
           if (i <? 0)%Z then (-1)%Z else (1 + i)%Z
  end.

Record MergeState : Type := mkMergeState {
  heap : list ChannelEntry;
  channelMap : ChannelMap
}.

(** The assignments made to a matched record. *)
Definition update_existing (existingCh plCh : ChannelEntry) : ChannelEntry :=
  {| xui_id := xui_id existingCh;
     tvg_id := tvg_id existingCh;
     tvg_name := tvg_name existingCh;
     tvg_logo := tvg_logo existingCh;
     group_title := if JsString.truthy (group_title plCh)
                    then group_title plCh else group_title existingCh;
     url := url plCh;
     created_at := created_at existingCh;
     country := if JsString.truthy (country plCh)
                then country plCh else country existingCh |}.

(** The key under which an unmatched playlist record is stored. *)
Definition insertion_key (playlistChannels : list Ref) (r : Ref)
  (plCh : ChannelEntry) : string :=
  JsString.or_else (tvg_id plCh)
    (JsString.or_else (tvg_name plCh)
       ("playlist_" +:+ JsString.of_Z (indexOf playlistChannels r))).

(** Indexing of one existing channel by its [tvg_id]. *)
Definition index_step (h : list ChannelEntry) (m : ChannelMap) (r : Ref)
  : ChannelMap :=
  match h !! r with
  | Some ch => if JsString.truthy (tvg_id ch) then map_set (tvg_id ch) r m else m
  | None => m
  end.

(** Body of the merge loop for the playlist object [r]. *)
Definition merge_step (playlistChannels : list Ref) (st : MergeState) (r : Ref)
  : MergeState :=
  match heap st !! r with
  | None => st
  | Some plCh =>
      let existingCh :=
        if JsString.truthy (tvg_id plCh)
        then map_get (tvg_id plCh) (channelMap st) else None in
      match existingCh with
      | Some re =>
          match heap st !! re with
          | Some ex =>
              {| heap := <[re := update_existing ex plCh]> (heap st);
                 channelMap := channelMap st |}
          | None => st
          end
      | None =>
          {| heap := heap st;
             channelMap :=
               map_set (insertion_key playlistChannels r plCh) r
                 (channelMap st) |}
      end
  end.

(** The objects returned by the store are the references below
    [length existingChannels]; the objects pushed by the pairing loop
    follow them. *)
Definition existing_refs (existingChannels : list ChannelEntry) : list Ref :=
  seq 0 (length existingChannels).

Definition playlist_refs (existingChannels playlistChannels : list ChannelEntry)
  : list Ref :=
  seq (length existingChannels) (length playlistChannels).

Definition indexed (existingChannels playlistChannels : list ChannelEntry)
  : MergeState :=
  let h := existingChannels ++ playlistChannels in
  {| heap := h;
     channelMap := fold_left (index_step h) (existing_refs existingChannels) [] |}.

(** The state after the merge loop has handled the first [i] playlist
    records. *)
Definition merged_upto (i : nat)
  (existingChannels playlistChannels : list ChannelEntry) : MergeState :=
  let refs := playlist_refs existingChannels playlistChannels in
  fold_left (merge_step refs) (take i refs)
    (indexed existingChannels playlistChannels).

(** The state after the whole merge loop. *)
Definition reconcile (existingChannels playlistChannels : list ChannelEntry)
  : MergeState :=
  let refs := playlist_refs existingChannels playlistChannels in
  fold_left (merge_step refs) refs (indexed existingChannels playlistChannels).

(** [Array.from(channelMap.values())] *)
Definition mergedChannels (st : MergeState) : list ChannelEntry :=
  omap (fun r => heap st !! r) (map_values (channelMap st)).

(* ===================================================================== *)
(** ** modules/iptv/index.ts *)
(* ===================================================================== *)

Section Index.

Variable rt : Runtime.
Variable co : Collaborators.

(** Body of the loop that pairs an [#EXTINF:] line with the line that
    holds its address.  The state is the pending record ([channel]) and
    the records pushed so far ([playlistChannels]).  The pending object is
    reachable only through [channel] until it is pushed, so it is kept by
    value. *)
Definition pairing_step (st : option ChannelEntry * list ChannelEntry)
  (line : string) : option ChannelEntry * list ChannelEntry :=
  let '(channel, playlistChannels) := st in
  if JsString.startsWith line "#EXTINF:" then
    (Some (fromPlaylistLine rt line), playlistChannels)
  else
    match channel with
    | Some ch =>
        if negb (JsString.startsWith line "#")
           && JsString.truthy (JsString.trim line)
        then
          (None,
           playlistChannels ++
             [{| xui_id := xui_id ch;
                 tvg_id := tvg_id ch;
                 tvg_name := tvg_name ch;
                 tvg_logo := tvg_logo ch;
                 group_title := group_title ch;
                 url := JsString.trim line;
                 created_at := now rt;
                 country := country ch |}])
        else st
    | None => st
    end.

Definition pairing_loop (lines : list string) : list ChannelEntry :=
  snd (fold_left pairing_step lines (None, [])).

(** [playlistContent.toString().split('\n')] followed by the pairing. *)
Definition parsePlaylist (playlistContent : string) : list ChannelEntry :=
  pairing_loop (JsString.split "010" playlistContent).

Definition is_none {A : Type} (o : option A) : bool :=
  match o with Some _ => false | None => true end.

Definition nonempty {A : Type} (l : list A) : bool :=
  match l with [] => false | _ :: _ => true end.

Definition when (b : bool) (m : M unit) : M unit := if b then m else ret tt.

(** [fillDbFromXMLTV(force)] *)
Definition fillDbFromXMLTV (force : bool) : M unit :=
  isStale <- call EvIsProgrammeDataStale (isProgrammeDataStale co) ;;
  if negb isStale && negb force then ret tt
  else
    cached <- call (EvGetCachedFile "xmltv.xml")
                   (getCachedFile co "xmltv.xml") ;;
    xmltvContent <-
      (if is_none cached || force
       then call (EvFetchWithRetry (XMLTV (config rt)) "xmltv.xml")
                 (fetchWithRetry co (XMLTV (config rt)) "xmltv.xml")
       else ret cached) ;;
    match xmltvContent with
    | None => ret tt
    | Some content =>
        xmltvPath <- call (EvGetCachedFilePath "xmltv.xml")
                          (getCachedFilePath co "xmltv.xml") ;;
        match xmltvPath with
        | None => ret tt
        | Some path =>
            writeFile co path content ;;;
            xmltvData <- call (EvParseXMLTVFull path)
                              (fun s => parseXMLTVFull rt (fs_files s) path) ;;
            when (nonempty (channels xmltvData))
              (clearChannels ;;; addChannels (channels xmltvData)) ;;;
            when (nonempty (programmes xmltvData))
              (clearProgrammes ;;; addProgrammes (programmes xmltvData))
        end
    end.

(** [fillDbChannelsFromPlaylist(force)] *)
Definition fillDbChannelsFromPlaylist (force : bool) : M unit :=
  match PLAYLIST (config rt) with
  | None => ret tt
  | Some playlist =>
      if negb (JsString.truthy playlist) then ret tt
      else
        cached <- call (EvGetCachedFile "playlist.m3u")
                       (getCachedFile co "playlist.m3u") ;;
        playlistContent <-
          (if is_none cached || force
           then call (EvFetchWithRetry playlist "playlist.m3u")
                     (fetchWithRetry co playlist "playlist.m3u")
           else ret cached) ;;
        match playlistContent with
        | None => ret tt
        | Some content =>
            existingChannels <- getChannelEntries ;;
            let playlistChannels := parsePlaylist content in
            let merged :=
              mergedChannels (reconcile existingChannels playlistChannels) in
            when (nonempty merged) (clearChannels ;;; addChannels merged)
        end
  end.

(** [fillDbProgrammes(force)] *)
Definition fillDbProgrammes (force : bool) : M unit :=
  isStale <- call EvIsProgrammeDataStale (isProgrammeDataStale co) ;;
  if isStale || force then
    clearProgrammes ;;;
    cached <- call (EvGetCachedFile "xmltv.xml")
                   (getCachedFile co "xmltv.xml") ;;
    xmltvContent <-
      (if is_none cached || force
       then call (EvFetchWithRetry (XMLTV (config rt)) "xmltv.xml")
                 (fetchWithRetry co (XMLTV (config rt)) "xmltv.xml")
       else ret cached) ;;
    match xmltvContent with
    | Some content =>
        xmltvPath <- call (EvGetCachedFilePath "xmltv.xml")
                          (getCachedFilePath co "xmltv.xml") ;;
        match xmltvPath with
        | Some path =>
            writeFile co path content ;;;
            programmes <- call (EvParseXMLTV path)
                               (fun s => parseXMLTV rt (fs_files s) path) ;;
            addProgrammes programmes
        | None => ret tt
        end
    | None => ret tt
    end
  else ret tt.


(** [config.PLAYLIST] as [fillDbChannels] hands it to the fetcher, without
    a check.  A source that is not configured reaches the fetcher as
    [undefined]; the model writes it as the text of that value. *)
Definition playlist_argument : string :=
  match PLAYLIST (config rt) with
  | Some playlist => playlist
  | None => "undefined"
  end.

(** [fillDbChannels(force)] (deprecated): the store is cleared first, the
    cache is read next, and the paired records are added when a content is
    there. *)
Definition fillDbChannels (force : bool) : M unit :=
  clearChannels ;;;
  cached <- call (EvGetCachedFile "playlist.m3u")
                 (getCachedFile co "playlist.m3u") ;;
  playlistContent <-
    (if is_none cached || force
     then call (EvFetchWithRetry playlist_argument "playlist.m3u")
               (fetchWithRetry co playlist_argument "playlist.m3u")
     else ret cached) ;;
  match playlistContent with
  | Some content => addChannels (parsePlaylist content)
  | None => ret tt
  end.

End Index.

(* ===================================================================== *)
(** ** Vocabulary of the statements *)
(* ===================================================================== *)

(** The first element of [l] that satisfies [P]; the empty string when no
    element does. *)
Fixpoint first_such (P : string -> bool) (l : list string) : string :=
  match l with
  | [] => ""
  | x :: rest => if P x then x else first_such P rest
  end.

(** The texts of the [display-name] elements of a channel, in document
    order. *)
Definition display_texts (channel : XmlNode) : list string :=
  map (fun d => extractTextContent (Some d)) (displayNames_of channel).

(** A programme element lacks [start] or [stop]: the attribute is absent
    or empty. *)
Definition lacks_start_or_stop (programme : XmlNode) : bool :=
  negb (truthy_opt (Xml.attr programme "start"))
  || negb (truthy_opt (Xml.attr programme "stop")).

Definition is_some {A : Type} (o : option A) : bool :=
  match o with Some _ => true | None => false end.

(** Both time attributes of a programme element denote dates. *)
Definition dates_valid (rt : Runtime) (programme : XmlNode) : bool :=
  match Xml.attr programme "start", Xml.attr programme "stop" with
  | Some s, Some e => is_some (parseDate rt s) && is_some (parseDate rt e)
  | _, _ => false
  end.

(** A valid programme element: both attributes present, both dates
    readable. *)
Definition valid_programme (rt : Runtime) (programme : XmlNode) : bool :=
  negb (lacks_start_or_stop programme) && dates_valid rt programme.

(* ===================================================================== *)
(** ** Sample inputs *)
(* ===================================================================== *)

Definition sample_config : Config :=
  {| XMLTV := "http://epg.example/xmltv.xml";
     PLAYLIST := Some "http://epg.example/playlist.m3u";
     STREAM_BASE_URL := Some "https://example.com/stream/channels/{channel}.m3u8" |}.

Definition sample_channel_node : XmlNode :=
  XElem (Some [("id", "drwho.uk")]) None
    [("display-name", [XText "102 Doctor Who"; XText "102"]);
     ("icon", [XElem (Some [("src", "http://img/drwho.png")]) None []])].

(** A channel whose first [display-name] element is empty. *)
Definition sample_channel_empty_first : XmlNode :=
  XElem (Some [("id", "bbc1.uk")]) None
    [("display-name", [XText ""; XText "BBC One"])].

Definition episode_num_node (system value : string) : XmlNode :=
  XElem (Some [("system", system)]) (Some value) [].

Definition sample_programme_ok : XmlNode :=
  XElem (Some [("start", "1700000000000"); ("stop", "1700003600000");
               ("channel", "drwho.uk")]) None
    [("title", [XText "The Daleks"]);
     ("episode-num", [episode_num_node "onscreen" "S2E27"]);
     ("previously-shown", [XText ""])].

Definition sample_programme_no_stop : XmlNode :=
  XElem (Some [("start", "1700003600000"); ("channel", "drwho.uk")]) None
    [("title", [XText "Untimed"])].

Definition sample_programme_late : XmlNode :=
  XElem (Some [("start", "1700007200000"); ("stop", "1700010800000");
               ("channel", "drwho.uk")]) None
    [("title", [XText "The Moonbase"])].

Definition sample_tv : XmlNode :=
  XElem None None
    [("channel", [sample_channel_node]);
     ("programme",
      [sample_programme_ok; sample_programme_no_stop; sample_programme_late])].

(** A runtime for evaluating the model: dates are written as their time
    value in milliseconds, a time value is rendered in decimal, and the
    only document the XML parser knows is [sample_tv]. *)
Definition sample_runtime : Runtime :=
  {| config := sample_config;
     now := "2024-01-01T00:00:00.000Z";
     parseDate := fun s =>
       match JsNum.parseInt s with Num z => Some z | _ => None end;
     toISOString := JsString.of_Z;
     parseString := fun content =>
       if String.eqb content "<tv>sample</tv>" then Some ("tv", sample_tv)
       else None;
     fromPlaylistLine := fun line =>
       {| xui_id := Num 0; tvg_id := ""; tvg_name := JsString.drop 8 line;
          tvg_logo := ""; group_title := ""; url := "";
          created_at := ""; country := "" |} |}.

Definition sample_files : gmap string string :=
  {[ "/cache/xmltv.xml" := "<tv>sample</tv>" ]}.

(* ===================================================================== *)
(** ** Vocabulary of the playlist pairing *)
(* ===================================================================== *)

Definition is_extinf (line : string) : bool :=
  JsString.startsWith line "#EXTINF:".

(** A line that is neither a comment nor blank. *)
Definition is_url_line (line : string) : bool :=
  negb (JsString.startsWith line "#") && JsString.truthy (JsString.trim line).

(** The address that follows an entry: the first non-comment, non-blank
    line met before the next [#EXTINF:] line or the end of the input, with
    the surrounding white space removed. *)
Fixpoint following_url (lines : list string) : option string :=
  match lines with
  | [] => None
  | l :: rest =>
      if is_extinf l then None
      else if is_url_line l then Some (JsString.trim l)
      else following_url rest
  end.

Definition with_url (rt : Runtime) (ch : ChannelEntry) (u : string)
  : ChannelEntry :=
  {| xui_id := xui_id ch;
     tvg_id := tvg_id ch;
     tvg_name := tvg_name ch;
     tvg_logo := tvg_logo ch;
     group_title := group_title ch;
     url := u;
     created_at := now rt;
     country := country ch |}.

(** The record, if any, that an entry line contributes given the lines
    that follow it. *)
Definition entry_record (rt : Runtime) (line : string) (rest : list string)
  : list ChannelEntry :=
  match following_url rest with
  | Some u => [with_url rt (fromPlaylistLine rt line) u]
  | None => []
  end.

(** The records of a playlist, entry by entry. *)
Fixpoint paired_records (rt : Runtime) (lines : list string)
  : list ChannelEntry :=
  match lines with
  | [] => []
  | l :: rest =>
      (if is_extinf l then entry_record rt l rest else [])
      ++ paired_records rt rest
  end.

Definition sample_lines : list string :=
  ["#EXTM3U";
   "#EXTINF:-1,Alpha";
   "#EXTINF:-1,Beta";
   "#EXTVLCOPT:network-caching=1000";
   "  http://host/beta.m3u8 ";
   "#EXTINF:-1,Gamma";
   ""].

(* ===================================================================== *)
(** ** Invariants of the reconciliation *)
(* ===================================================================== *)

(** The fields of a channel object that no assignment of the merge loop
    touches. *)
Definition same_identity (c c0 : ChannelEntry) : Prop :=
  xui_id c = xui_id c0 /\ tvg_id c = tvg_id c0 /\ tvg_name c = tvg_name c0 /\
  tvg_logo c = tvg_logo c0 /\ created_at c = created_at c0.

(** Every entry of the map names an object allocated below [bound]; an
    entry for an object returned by the store is filed under the non-empty
    [tvg_id] of that object. *)
Definition map_ok (existing : list ChannelEntry) (bound : nat)
  (m : ChannelMap) : Prop :=
  forall k r, In (k, r) m ->
    r < bound /\
    (r < length existing ->
     exists ex, existing !! r = Some ex /\ tvg_id ex = k /\ k <> "").

Record merge_inv (existing pl : list ChannelEntry) (i : nat) (st : MergeState)
  : Prop := mkMergeInv {
  inv_length : length (heap st) = length existing + length pl;
  inv_pending : forall j, i <= j ->
                heap st !! (length existing + j) = pl !! j;
  inv_identity : forall r c0, (existing ++ pl) !! r = Some c0 ->
                 exists c, heap st !! r = Some c /\ same_identity c c0;
  inv_map : map_ok existing (length existing + i) (channelMap st);
  inv_keys : NoDup (map_keys (channelMap st));
  inv_values : NoDup (map_values (channelMap st))
}.

Definition sample_existing_no_id : ChannelEntry :=
  {| xui_id := Num 0; tvg_id := ""; tvg_name := "Local feed";
     tvg_logo := ""; group_title := ""; url := "http://old/local";
     created_at := "2023-12-31T00:00:00.000Z"; country := "" |}.

Definition sample_existing_abc : ChannelEntry :=
  {| xui_id := Num 102; tvg_id := "abc"; tvg_name := "102 Doctor Who";
     tvg_logo := "http://img/drwho.png"; group_title := "Drama"; url := "";
     created_at := "2023-12-31T00:00:00.000Z"; country := "UK" |}.

Definition sample_playlist_abc : ChannelEntry :=
  {| xui_id := Num 0; tvg_id := "abc"; tvg_name := "Doctor Who HD";
     tvg_logo := ""; group_title := ""; url := "http://x/stream";
     created_at := "2024-01-01T00:00:00.000Z"; country := "GB" |}.

Definition sample_playlist_new : ChannelEntry :=
  {| xui_id := Num 0; tvg_id := "xyz"; tvg_name := "Extra";
     tvg_logo := ""; group_title := "News"; url := "http://x/extra";
     created_at := "2024-01-01T00:00:00.000Z"; country := "" |}.

Definition sample_playlist_anonymous : ChannelEntry :=
  {| xui_id := Num 0; tvg_id := ""; tvg_name := "";
     tvg_logo := ""; group_title := ""; url := "http://x/anon";
     created_at := "2024-01-01T00:00:00.000Z"; country := "" |}.

(** A second playlist record for the channel ["abc"], from another
    source. *)
Definition sample_playlist_abc_alt : ChannelEntry :=
  {| xui_id := Num 0; tvg_id := "abc"; tvg_name := "Doctor Who SD";
     tvg_logo := ""; group_title := "Classics"; url := "http://y/stream";
     created_at := "2024-01-01T00:00:00.000Z"; country := "" |}.

(** A playlist record without [tvg_id] whose [tvg_name] is ["abc"]. *)
Definition sample_playlist_named_abc : ChannelEntry :=
  {| xui_id := Num 0; tvg_id := ""; tvg_name := "abc";
     tvg_logo := ""; group_title := ""; url := "http://x/named";
     created_at := "2024-01-01T00:00:00.000Z"; country := "" |}.



(* ===================================================================== *)
(** ** Vocabulary of the refresh steps *)
(* ===================================================================== *)

(** The content a fill step ends up with: the cached file unless it is
    missing or the refresh is forced, in which case the answer of the
    fetcher. *)
Definition obtained (co : Collaborators) (force : bool) (name source : string)
  (s : State) : option string :=
  let cached := getCachedFile co name s in
  if is_none cached || force then fetchWithRetry co source name s else cached.

(** The four write operations of the store. *)
Definition is_store_write (e : Event) : bool :=
  match e with
  | EvClearChannels | EvAddChannels _ | EvClearProgrammes | EvAddProgrammes _ =>
      true
  | _ => false
  end.

Definition is_channel_write (e : Event) : bool :=
  match e with
  | EvClearChannels | EvAddChannels _ => true
  | _ => false
  end.

Definition is_programme_write (e : Event) : bool :=
  match e with
  | EvClearProgrammes | EvAddProgrammes _ => true
  | _ => false
  end.


(** The calls that change the file system or a store. *)
Definition is_write (e : Event) : bool :=
  match e with
  | EvWriteFile _ => true
  | other => is_store_write other
  end.

(** [fillDbFromXMLTV] ends before it parses: the data is fresh and the
    refresh is not forced, or no content is obtained, or the cache path is
    null. *)
Definition xmltv_stops_before_parsing (rt : Runtime) (co : Collaborators)
  (force : bool) (s : State) : bool :=
  (negb (isProgrammeDataStale co s) && negb force)
  || is_none (obtained co force "xmltv.xml" (XMLTV (config rt)) s)
  || is_none (getCachedFilePath co "xmltv.xml" s).

(** What [fillDbFromXMLTV] parses when it gets that far: the data is stale
    or the refresh forced, a content and a cache path are there, and the
    write of the content has resolved. *)
Definition xmltv_parsed (rt : Runtime) (co : Collaborators) (force : bool)
  (s : State) : option XMLTVData :=
  if negb (isProgrammeDataStale co s) && negb force then None
  else
    match obtained co force "xmltv.xml" (XMLTV (config rt)) s,
          getCachedFilePath co "xmltv.xml" s with
    | Some content, Some path =>
        match writeFileOutcome co path content s with
        | Written =>
            Some (parseXMLTVFull rt (<[path := content]> (fs_files s)) path)
        | Rejected _ => None
        end
    | _, _ => None
    end.


(** The playlist source when one is configured. *)
Definition playlist_source (rt : Runtime) : option string :=
  match PLAYLIST (config rt) with
  | Some playlist => if JsString.truthy playlist then Some playlist else None
  | None => None
  end.

(** Collaborators of a host that is off line with an empty cache: the
    stored programmes count as stale, nothing is cached, every fetch is
    exhausted. *)
Definition offline_collaborators : Collaborators :=
  {| isProgrammeDataStale := fun _ => true;
     getCachedFile := fun _ _ => None;
     fetchWithRetry := fun _ _ _ => None;
     getCachedFilePath := fun name _ => Some ("/cache/" +:+ name);
     writeFileOutcome := fun _ _ _ => Written |}.

(** Collaborators of a host whose cache directory holds the files of the
    file system under [/cache/]; the stored programmes count as stale when
    there are none; every fetch is exhausted. *)
Definition cached_collaborators : Collaborators :=
  {| isProgrammeDataStale := fun s => negb (nonempty (store_programmes s));
     getCachedFile := fun name s => fs_files s !! ("/cache/" +:+ name);
     fetchWithRetry := fun _ _ _ => None;
     getCachedFilePath := fun name _ => Some ("/cache/" +:+ name);
     writeFileOutcome := fun _ _ _ => Written |}.

(** Collaborators of a host whose cache holds the sample document but
    whose cache directory cannot be written: every write rejects and
    leaves the file as it was. *)
Definition readonly_collaborators : Collaborators :=
  {| isProgrammeDataStale := fun _ => true;
     getCachedFile := fun name _ =>
       if String.eqb name "xmltv.xml" then Some "<tv>sample</tv>" else None;
     fetchWithRetry := fun _ _ _ => None;
     getCachedFilePath := fun name _ => Some ("/cache/" +:+ name);
     writeFileOutcome := fun _ _ _ => Rejected None |}.

Definition sample_stored_programme : ProgrammeEntry :=
  {| start := "1700000000000"; stop := "1700003600000";
     start_timestamp := 1700000000; stop_timestamp := 1700003600;
     channel := Some "abc"; title := "Stored"; description := "";
     category := ""; subtitle := ""; episode_num := "";
     season := None; episode := None; icon := ""; image := ""; date := "";
     previously_shown := false;
     p_created_at := "2023-12-31T00:00:00.000Z" |}.

Definition sample_world : World :=
  {| state :=
       {| store_channels := [sample_existing_no_id; sample_existing_abc];
          store_programmes := [sample_stored_programme];
          fs_files := {[ "/cache/playlist.m3u" := "#EXTM3U" ]};
          cache_purges := 0;
          scheduler_arms := 0 |};
     trace := [] |}.

(* ===================================================================== *)
(** ** Further vocabulary: episode numbers and programme elements *)
(* ===================================================================== *)

(** The element declares the numbering system [sys]. *)
Definition has_system (sys : string) (epNum : XmlNode) : bool :=
  match Xml.attr epNum "system" with
  | Some s => String.eqb s sys
  | None => false
  end.

(** The text of the last element of [elems] that declares the on-screen
    system; [default] when there is none. *)
Fixpoint last_onscreen_text (elems : list XmlNode) (default : string) : string :=
  match elems with
  | [] => default
  | x :: rest =>
      last_onscreen_text rest
        (if has_system "onscreen" x then extractTextContent (Some x)
         else default)
  end.

(** The element declares one of the two systems the parser knows. *)
Definition known_system (epNum : XmlNode) : bool :=
  has_system "onscreen" epNum || has_system "xmltv_ns" epNum.

(** The character is not a decimal digit, or there is none. *)
Definition no_leading_digit (s : string) : bool :=
  match s with
  | EmptyString => true
  | String c _ => negb (JsString.is_digit c)
  end.

(** [id] attribute of a channel element, empty when absent. *)
Definition channel_id (channel : XmlNode) : string :=
  match Xml.attr channel "id" with Some i => i | None => "" end.

Definition sample_programme_bare : XmlNode :=
  XElem (Some [("start", "1700000000999"); ("stop", "1700000000999")]) None [].

(** The string holds no opening brace. *)
Fixpoint no_brace (s : string) : bool :=
  match s with
  | EmptyString => true
  | String c r => negb (Ascii.eqb c "{") && no_brace r
  end.

(** The channel number of a channel element: its first purely numeric
    display name, empty when there is none. *)
Definition channel_number (channel : XmlNode) : string :=
  first_such JsString.is_numeric (display_texts channel).

Definition sample_template_runtime (template : string) : Runtime :=
  {| config := {| XMLTV := XMLTV sample_config;
                  PLAYLIST := PLAYLIST sample_config;
                  STREAM_BASE_URL := Some template |};
     now := now sample_runtime;
     parseDate := parseDate sample_runtime;
     toISOString := toISOString sample_runtime;
     parseString := parseString sample_runtime;
     fromPlaylistLine := fromPlaylistLine sample_runtime |}.

(* ===================================================================== *)
(** ** Further vocabulary: keys of the reconciliation *)
(* ===================================================================== *)

(** The key under which the playlist record at position [j] of the batch
    is stored when it matches no entry. *)
Definition playlist_key (j : nat) (q : ChannelEntry) : string :=
  JsString.or_else (tvg_id q)
    (JsString.or_else (tvg_name q)
       ("playlist_" +:+ JsString.of_Z (Z.of_nat j))).

(** The keys of the records of a batch whose first position is [j]. *)
Fixpoint playlist_keys_from (j : nat) (pl : list ChannelEntry) : list string :=
  match pl with
  | [] => []
  | q :: rest => playlist_key j q :: playlist_keys_from (S j) rest
  end.

Definition playlist_keys (pl : list ChannelEntry) : list string :=
  playlist_keys_from 0 pl.

(** The entries of the batch: each record under its key, as the object
    allocated at [base] plus its position. *)
Fixpoint playlist_entries_from (j base : nat) (pl : list ChannelEntry)
  : ChannelMap :=
  match pl with
  | [] => []
  | q :: rest =>
      (playlist_key j q, base + j) :: playlist_entries_from (S j) base rest
  end.

(** The entries of the store records: each under its [tvg_id], as the
    object at its position. *)
Fixpoint id_entries_from (j : nat) (existing : list ChannelEntry) : ChannelMap :=
  match existing with
  | [] => []
  | x :: rest => (tvg_id x, j) :: id_entries_from (S j) rest
  end.

(** A playlist record with neither [tvg_id] nor [tvg_name]. *)
Definition anonymous (q : ChannelEntry) : bool :=
  negb (JsString.truthy (tvg_id q)) && negb (JsString.truthy (tvg_name q)).

(* ===================================================================== *)
(** ** Further vocabulary: the refresh steps *)
(* ===================================================================== *)

(** A call of the fetcher. *)
Definition is_fetch (e : Event) : bool :=
  match e with
  | EvFetchWithRetry _ _ => true
  | _ => false
  end.

(** A parse of the programmes or an insert into the programme store. *)
Definition is_parse_or_add (e : Event) : bool :=
  match e with
  | EvParseXMLTV _ | EvAddProgrammes _ => true
  | _ => false
  end.

Definition sample_anonymous_batch : list ChannelEntry :=
  [sample_playlist_anonymous; sample_playlist_anonymous;
   sample_playlist_anonymous].

(** Collaborators of a host whose cache holds the sample document and
    whose fetcher answers with a playlist of one entry. *)
Definition online_collaborators : Collaborators :=
  {| isProgrammeDataStale := fun _ => true;
     getCachedFile := fun name _ =>
       if String.eqb name "xmltv.xml" then Some "<tv>sample</tv>" else None;
     fetchWithRetry := fun _ name _ =>
       if String.eqb name "playlist.m3u"
       then Some ("#EXTINF:-1,One" +:+ String "010" "http://host/one.m3u8")
       else None;
     getCachedFilePath := fun name _ => Some ("/cache/" +:+ name);
     writeFileOutcome := fun _ _ _ => Written |}.

(** A world whose stored channels all carry a distinct [tvg_id] and whose
    cached playlist holds no entry. *)
Definition sample_world_with_ids : World :=
  {| state :=
       {| store_channels := [sample_existing_abc];
          store_programmes := [];
          fs_files := {[ "/cache/playlist.m3u" := "#EXTM3U" ]};
          cache_purges := 0;
          scheduler_arms := 0 |};
     trace := [] |}.

(* ===================================================================== *)
(** ** Facts about strings and numbers *)
(* ===================================================================== *)

Lemma truthy_false_empty (s : string) : JsString.truthy s = false -> s = "".
Proof. destruct s; [reflexivity | discriminate]. Qed.

Lemma truthy_cons (c : ascii) (s : string) : JsString.truthy (String c s) = true.
Proof. reflexivity. Qed.

Lemma is_numeric_truthy (s : string) :
  JsString.is_numeric s = true -> JsString.truthy s = true.
Proof. unfold JsString.is_numeric. intros H. apply andb_true_iff in H. tauto. Qed.

Lemma is_digit_not_space (c : ascii) :
  JsString.is_digit c = true -> JsString.is_space c = false.
Proof.
  unfold JsString.is_digit, JsString.is_space. cbv zeta.
  generalize (JsString.code c). intros n H.
  apply andb_true_iff in H. destruct H as [H1 H2].
  apply N.leb_le in H1. apply N.leb_le in H2.
  repeat match goal with
         | |- (_ || _)%bool = false => apply orb_false_iff; split
         | |- (_ && _)%bool = false => apply andb_false_iff
         end.
  - right. apply N.leb_gt. lia.
  - apply N.eqb_neq. lia.
  - apply N.eqb_neq. lia.
Qed.

Lemma span_digits_all (s : string) :
  JsString.all_digits s = true -> JsString.span_digits s = (s, "").
Proof.
  induction s as [|c r IH]; simpl; [reflexivity|].
  intros H. apply andb_true_iff in H. destruct H as [Hc Hr].
  rewrite Hc, (IH Hr). reflexivity.
Qed.

(** On a non-empty string of digits [parseInt] is the double nearest to
    the decimal value. *)
Lemma parseInt_numeric (s : string) :
  JsString.is_numeric s = true ->
  JsNum.parseInt s = JsNum.round_to_double (JsNum.digits_value 0 s).
Proof.
  unfold JsString.is_numeric. intros H.
  apply andb_true_iff in H. destruct H as [Ht Hd].
  destruct s as [|c r]; [discriminate|].
  pose proof Hd as Hd'. simpl in Hd'.
  apply andb_true_iff in Hd'. destruct Hd' as [Hc Hr].
  unfold JsNum.parseInt.
  assert (Hts : JsString.trimStart (String c r) = String c r).
  { simpl. rewrite (is_digit_not_space _ Hc). reflexivity. }
  rewrite Hts.
  assert (Hsign : match String c r with
                  | String "-"%char r0 => (true, r0)
                  | String "+"%char r0 => (false, r0)
                  | _ => (false, String c r)
                  end = (false, String c r)).
  { destruct c as [[] [] [] [] [] [] [] []]; try reflexivity; discriminate Hc. }
  rewrite Hsign. rewrite (span_digits_all _ Hd). reflexivity.
Qed.

(* ===================================================================== *)
(** ** Channel elements *)
(* ===================================================================== *)

Lemma displayName_fold (l : list XmlNode) (a b : string) :
  fold_left displayName_step l (a, b) =
  (if JsString.truthy a then a
   else first_such JsString.truthy
          (map (fun d => extractTextContent (Some d)) l),
   if JsString.truthy b then b
   else first_such JsString.is_numeric
          (map (fun d => extractTextContent (Some d)) l)).
Proof.
  revert a b. induction l as [|d l IH]; intros a b.
  - simpl.
    destruct (JsString.truthy a) eqn:Ha, (JsString.truthy b) eqn:Hb;
      repeat match goal with
             | H : JsString.truthy _ = false |- _ =>
                 apply truthy_false_empty in H; subst
             end; reflexivity.
  - cbn [fold_left map first_such].
    remember (extractTextContent (Some d)) as name eqn:Hname.
    assert (Hstep : displayName_step (a, b) d =
                    (if negb (JsString.truthy a) then name else a,
                     if JsString.is_numeric name && negb (JsString.truthy b)
                     then name else b)).
    { unfold displayName_step. rewrite <- Hname. reflexivity. }
    rewrite Hstep, IH. clear Hstep IH Hname.
    destruct (JsString.truthy a) eqn:Ha, (JsString.truthy b) eqn:Hb,
             (JsString.is_numeric name) eqn:Hn; cbn [negb andb];
      rewrite ?Ha, ?Hb, ?(is_numeric_truthy _ Hn); try reflexivity.
Qed.

Lemma first_such_numeric (l : list string) :
  JsString.truthy (first_such JsString.is_numeric l) = true <->
  exists n, In n l /\ JsString.is_numeric n = true.
Proof.
  induction l as [|x l IH]; simpl.
  - split; [discriminate | intros [n [[] _]]].
  - destruct (JsString.is_numeric x) eqn:Hx.
    + split; [intros _; exists x; auto | intros _; apply is_numeric_truthy, Hx].
    + rewrite IH. split; intros [n [Hin Hn]]; exists n.
      * auto.
      * destruct Hin as [->|Hin]; [congruence | auto].
Qed.

Lemma first_such_is_numeric (l : list string) :
  JsString.truthy (first_such JsString.is_numeric l) = true ->
  JsString.is_numeric (first_such JsString.is_numeric l) = true.
Proof.
  induction l as [|x l IH]; simpl; [discriminate|].
  destruct (JsString.is_numeric x) eqn:Hx; auto.
Qed.

(** C3, as stated, fails: with an empty first [display-name] the parsed
    [tvg_name] is the text of a later element, not of the first one. *)
Lemma parseChannelEntry_empty_first_display_name :
  hd_error (display_texts sample_channel_empty_first) = Some "" /\
  tvg_name (parseChannelEntry sample_runtime sample_channel_empty_first)
    = "BBC One" /\
  Some (tvg_name (parseChannelEntry sample_runtime sample_channel_empty_first))
    <> hd_error (display_texts sample_channel_empty_first).
Proof. split; [reflexivity | split; [reflexivity | discriminate]]. Qed.

(** C3 (amended): for every XMLTV channel element, [tvg_name] is the text
    of the first display-name whose text is not empty (empty when there is
    none), so it is the text of the first element whenever that text is not
    empty; the channel number is the first purely numeric display-name
    text; [xui_id] is that number read as a decimal integer when such a
    text exists and 0 otherwise; the stream URL is the configured template
    with the first [{channel}] replaced by the channel number, and is empty
    when no template is configured or no numeric display-name exists. *)
Theorem parseChannelEntry_fields (rt : Runtime) (channel : XmlNode) :
  let names := display_texts channel in
  let number := first_such JsString.is_numeric names in
  let e := parseChannelEntry rt channel in
  tvg_name e = first_such JsString.truthy names /\
  (forall n rest, names = n :: rest -> n <> "" -> tvg_name e = n) /\
  (JsString.truthy number = true <->
   exists n, In n names /\ JsString.is_numeric n = true) /\
  xui_id e = (if JsString.truthy number
              then JsNum.round_to_double (JsNum.digits_value 0 number)
              else Num 0) /\
  url e = match STREAM_BASE_URL (config rt) with
          | Some base =>
              if JsString.truthy base && JsString.truthy number
              then JsString.replace "{channel}" number base
              else ""
          | None => ""
          end.
Proof.
  intros names number e.
  assert (Hfold : fold_left displayName_step (displayNames_of channel) ("", "")
                  = (first_such JsString.truthy names, number)).
  { rewrite displayName_fold. reflexivity. }
  assert (He : e = parseChannelEntry rt channel) by reflexivity.
  unfold parseChannelEntry in He. rewrite Hfold in He.
  split; [|split; [|split; [|split]]].
  - rewrite He. reflexivity.
  - intros n rest Hn Hne. rewrite He. simpl. rewrite Hn. simpl.
    destruct n; [congruence | reflexivity].
  - apply first_such_numeric.
  - rewrite He. simpl.
    destruct (JsString.truthy number) eqn:Hnum; [|reflexivity].
    apply parseInt_numeric, first_such_is_numeric, Hnum.
  - rewrite He. reflexivity.
Qed.

Lemma parseChannelEntry_fields_witness :
  tvg_name (parseChannelEntry sample_runtime sample_channel_node)
    = "102 Doctor Who" /\
  xui_id (parseChannelEntry sample_runtime sample_channel_node) = Num 102 /\
  url (parseChannelEntry sample_runtime sample_channel_node)
    = "https://example.com/stream/channels/102.m3u8".
Proof.
  destruct (parseChannelEntry_fields sample_runtime sample_channel_node)
    as [Hname [_ [_ [Hid Hurl]]]].
  split; [rewrite Hname; reflexivity|].
  split; [rewrite Hid; reflexivity | rewrite Hurl; reflexivity].
Defined.

(* ===================================================================== *)
(** ** Episode numbers *)
(* ===================================================================== *)

Example parseEpisodeNumber_xmltv_ns :
  parseEpisodeNumber (Some [episode_num_node "xmltv_ns" "1.26.0/1"]) =
  {| episodeNum := ""; ep_season := Some (Num 2); ep_episode := Some (Num 27) |}.
Proof. reflexivity. Qed.

Example parseEpisodeNumber_onscreen :
  parseEpisodeNumber (Some [episode_num_node "onscreen" "S2E27"]) =
  {| episodeNum := "S2E27";
     ep_season := Some (Num 2); ep_episode := Some (Num 27) |}.
Proof. reflexivity. Qed.

Lemma episodeNum_step_onscreen (st : EpisodeInfo) (v m1 m2 : string) :
  onscreenMatch v = Some (m1, m2) ->
  episodeNum_step st (episode_num_node "onscreen" v) =
  {| episodeNum := v;
     ep_season := Some (JsNum.parseInt m1);
     ep_episode := Some (JsNum.parseInt m2) |}.
Proof.
  intros Hm. unfold episodeNum_step, episode_num_node.
  cbn [Xml.attr Xml.dollar Xml.assoc extractTextContent].
  cbn [String.eqb Ascii.eqb Bool.eqb]. rewrite Hm. reflexivity.
Qed.

Lemma episodeNum_step_xmltv_ns_skipped (st : EpisodeInfo) (u : string) :
  JsNum.falsy (ep_season st) = false ->
  episodeNum_step st (episode_num_node "xmltv_ns" u) = st.
Proof.
  intros Hs. unfold episodeNum_step, episode_num_node.
  cbn [Xml.attr Xml.dollar Xml.assoc extractTextContent].
  cbn [String.eqb Ascii.eqb Bool.eqb]. rewrite Hs. reflexivity.
Qed.

(** The precedence of the on-screen numbering holds in both document
    orders as long as the on-screen season is a non-zero number. *)
Lemma parseEpisodeNumber_onscreen_precedence (v u m1 m2 : string) :
  onscreenMatch v = Some (m1, m2) ->
  JsNum.falsy (Some (JsNum.parseInt m1)) = false ->
  let expected := {| episodeNum := v;
                     ep_season := Some (JsNum.parseInt m1);
                     ep_episode := Some (JsNum.parseInt m2) |} in
  parseEpisodeNumber
    (Some [episode_num_node "onscreen" v; episode_num_node "xmltv_ns" u])
    = expected /\
  parseEpisodeNumber
    (Some [episode_num_node "xmltv_ns" u; episode_num_node "onscreen" v])
    = expected.
Proof.
  intros Hm Hs expected. unfold parseEpisodeNumber. cbn [fold_left]. split.
  - rewrite (episodeNum_step_onscreen _ _ _ _ Hm).
    apply episodeNum_step_xmltv_ns_skipped. exact Hs.
  - apply episodeNum_step_onscreen. exact Hm.
Qed.

(** C4: the claim's two decoding examples hold, but the precedence of the
    on-screen numbering does not hold on the code when the on-screen season
    is 0: the guard [!season] takes season 0 for "not set", so an
    [xmltv_ns] element that follows [S0E5] replaces both the season and the
    episode. *)
Theorem parseEpisodeNumber_onscreen_season_zero :
  parseEpisodeNumber
    (Some [episode_num_node "onscreen" "S0E5";
           episode_num_node "xmltv_ns" "1.26.0/1"])
  = {| episodeNum := "S0E5";
       ep_season := Some (Num 2); ep_episode := Some (Num 27) |}
  /\ parseEpisodeNumber (Some [episode_num_node "onscreen" "S0E5"])
  = {| episodeNum := "S0E5";
       ep_season := Some (Num 0); ep_episode := Some (Num 5) |}.
Proof. split; reflexivity. Qed.

(* ===================================================================== *)
(** ** Programme elements *)
(* ===================================================================== *)

Lemma programme_fold_acc (rt : Runtime) (elems : list XmlNode)
  (acc : list ProgrammeEntry) :
  fold_left
    (fun programmes programme =>
       match parseProgrammeEntry rt programme with
       | Returned parsedProgramme => programmes ++ [parsedProgramme]
       | Thrown _ => programmes
       end) elems acc
  = acc ++ programme_loop rt elems.
Proof.
  unfold programme_loop. revert acc.
  induction elems as [|p elems IH]; intros acc; cbn [fold_left].
  - rewrite app_nil_r. reflexivity.
  - rewrite IH. rewrite (IH (match parseProgrammeEntry rt p with
                             | Returned e => [] ++ [e]
                             | Thrown _ => []
                             end)).
    destruct (parseProgrammeEntry rt p); cbn [app].
    + rewrite <- app_assoc. reflexivity.
    + reflexivity.
Qed.

Lemma programme_loop_cons (rt : Runtime) (p : XmlNode) (elems : list XmlNode) :
  programme_loop rt (p :: elems) =
  match parseProgrammeEntry rt p with
  | Returned e => e :: programme_loop rt elems
  | Thrown _ => programme_loop rt elems
  end.
Proof.
  unfold programme_loop at 1. cbn [fold_left]. rewrite programme_fold_acc.
  destruct (parseProgrammeEntry rt p); reflexivity.
Qed.

Lemma programme_loop_app (rt : Runtime) (l1 l2 : list XmlNode) :
  programme_loop rt (l1 ++ l2) = programme_loop rt l1 ++ programme_loop rt l2.
Proof.
  induction l1 as [|p l1 IH]; [reflexivity|].
  rewrite <- app_comm_cons, !programme_loop_cons, IH.
  destruct (parseProgrammeEntry rt p); reflexivity.
Qed.

Lemma lacking_programme_throws (rt : Runtime) (p : XmlNode) :
  lacks_start_or_stop p = true ->
  exists msg, parseProgrammeEntry rt p = Thrown msg.
Proof.
  unfold lacks_start_or_stop, parseProgrammeEntry, Xml.attr.
  destruct (Xml.dollar p) as [attrs|]; [|eauto].
  destruct (Xml.assoc "start" attrs) as [s|], (Xml.assoc "stop" attrs) as [e|];
    cbn [truthy_opt negb orb]; eauto.
  - intros H. destruct (JsString.truthy s), (JsString.truthy e);
      cbn in H; try discriminate; cbn [andb]; eauto.
Qed.

Lemma valid_programme_returns (rt : Runtime) (p : XmlNode) :
  valid_programme rt p = true ->
  exists e, parseProgrammeEntry rt p = Returned e.
Proof.
  unfold valid_programme, lacks_start_or_stop, dates_valid,
    parseProgrammeEntry, Xml.attr.
  destruct (Xml.dollar p) as [attrs|]; [|discriminate].
  destruct (Xml.assoc "start" attrs) as [s|], (Xml.assoc "stop" attrs) as [e|];
    cbn [truthy_opt negb orb andb]; try discriminate.
  - destruct (JsString.truthy s), (JsString.truthy e);
      cbn [negb orb andb]; try discriminate.
    destruct (parseDate rt s), (parseDate rt e);
      cbn [is_some andb]; try discriminate. eauto.
  - destruct (JsString.truthy s); discriminate.
Qed.

(** C8: in a document whose programme elements are [l1 ++ p :: l2], an
    element [p] that lacks [start] or [stop] contributes nothing to the
    result of [parseXMLTV] (and of [parseXMLTVFull]) while the elements
    before and after it are parsed as they would be without it; a valid
    element contributes its record at its place.  The throw of one element
    never empties or truncates the result. *)
Theorem parseXMLTV_partial_success (rt : Runtime) (files : gmap string string)
  (path content : string) (tv p : XmlNode) (l1 l2 : list XmlNode) :
  files !! path = Some content ->
  parseString rt content = Some ("tv", tv) ->
  elements_of tv "programme" = l1 ++ p :: l2 ->
  (lacks_start_or_stop p = true ->
   parseXMLTV rt files path = programme_loop rt l1 ++ programme_loop rt l2 /\
   programmes (parseXMLTVFull rt files path)
     = programme_loop rt l1 ++ programme_loop rt l2) /\
  (valid_programme rt p = true ->
   exists e, parseProgrammeEntry rt p = Returned e /\
     parseXMLTV rt files path
       = programme_loop rt l1 ++ e :: programme_loop rt l2 /\
     programmes (parseXMLTVFull rt files path)
       = programme_loop rt l1 ++ e :: programme_loop rt l2).
Proof.
  intros Hfile Hparse Helems.
  assert (Hp : parseXMLTV rt files path = programme_loop rt (l1 ++ p :: l2)).
  { unfold parseXMLTV. rewrite Hfile, Hparse. cbn. rewrite Helems. reflexivity. }
  assert (Hf : programmes (parseXMLTVFull rt files path)
               = programme_loop rt (l1 ++ p :: l2)).
  { unfold parseXMLTVFull. rewrite Hfile, Hparse. cbn. rewrite Helems.
    reflexivity. }
  rewrite Hp, Hf, programme_loop_app, programme_loop_cons. split.
  - intros Hl. destruct (lacking_programme_throws rt p Hl) as [msg ->]. auto.
  - intros Hv. destruct (valid_programme_returns rt p Hv) as [e ->]. eauto.
Qed.

Lemma parseXMLTV_partial_success_witness :
  programme_loop sample_runtime [sample_programme_ok]
    ++ programme_loop sample_runtime [sample_programme_late]
  = parseXMLTV sample_runtime sample_files "/cache/xmltv.xml"
  /\ length (parseXMLTV sample_runtime sample_files "/cache/xmltv.xml") = 2.
Proof.
  pose proof (parseXMLTV_partial_success sample_runtime sample_files
                "/cache/xmltv.xml" "<tv>sample</tv>" sample_tv
                sample_programme_no_stop
                [sample_programme_ok] [sample_programme_late]
                eq_refl eq_refl eq_refl) as [Hlack _].
  destruct (Hlack eq_refl) as [H _].
  split; [symmetry; exact H | rewrite H; reflexivity].
Defined.

(** C10: whenever a programme element parses, [previously_shown] is true
    exactly when the element has a [previously-shown] child entry, whatever
    that entry holds. *)
Theorem previously_shown_iff_child (rt : Runtime) (p : XmlNode)
  (e : ProgrammeEntry) :
  parseProgrammeEntry rt p = Returned e ->
  (previously_shown e = true <-> Xml.child p "previously-shown" <> None) /\
  (forall v, Xml.child p "previously-shown" = Some v ->
             previously_shown e = true) /\
  (Xml.child p "previously-shown" = None -> previously_shown e = false).
Proof.
  unfold parseProgrammeEntry.
  destruct (Xml.dollar p) as [attrs|]; [|discriminate].
  destruct (Xml.assoc "start" attrs) as [s|]; [|discriminate].
  destruct (Xml.assoc "stop" attrs) as [t|]; [|discriminate].
  destruct (JsString.truthy s && JsString.truthy t); [|discriminate].
  destruct (parseDate rt s); [|discriminate].
  destruct (parseDate rt t); [|discriminate].
  intros H. injection H as <-. cbn [previously_shown].
  destruct (Xml.child p "previously-shown") as [v|].
  - split; [split; [discriminate | reflexivity] |].
    split; [reflexivity | discriminate].
  - split; [split; [discriminate | congruence] |].
    split; [discriminate | reflexivity].
Qed.

Lemma previously_shown_iff_child_witness :
  exists e, parseProgrammeEntry sample_runtime sample_programme_ok = Returned e
            /\ previously_shown e = true.
Proof.
  destruct (parseProgrammeEntry sample_runtime sample_programme_ok)
    as [e|msg] eqn:He; [|discriminate He].
  exists e. split; [reflexivity|].
  destruct (previously_shown_iff_child sample_runtime sample_programme_ok e He)
    as [_ [Hsome _]].
  apply (Hsome [XText ""]). reflexivity.
Defined.

(* ===================================================================== *)
(** ** Pairing of playlist lines *)
(* ===================================================================== *)

Lemma pairing_fold (rt : Runtime) (lines : list string)
  (channel : option ChannelEntry) (out : list ChannelEntry) :
  snd (fold_left (pairing_step rt) lines (channel, out)) =
  out ++
  match channel, following_url lines with
  | Some ch, Some u => [with_url rt ch u]
  | _, _ => []
  end ++ paired_records rt lines.
Proof.
  revert channel out.
  induction lines as [|l rest IH]; intros channel out.
  - cbn. destruct channel; rewrite app_nil_r; reflexivity.
  - cbn [fold_left following_url paired_records].
    unfold pairing_step at 2. fold (is_extinf l).
    destruct (is_extinf l) eqn:He.
    + rewrite IH. unfold entry_record.
      destruct channel; reflexivity.
    + destruct channel as [ch|].
      * fold (is_url_line l). destruct (is_url_line l) eqn:Hu.
        -- rewrite IH. cbn [app]. rewrite <- app_assoc. reflexivity.
        -- rewrite IH. reflexivity.
      * rewrite IH. reflexivity.
Qed.

Lemma pairing_loop_spec (rt : Runtime) (lines : list string) :
  pairing_loop rt lines = paired_records rt lines.
Proof. unfold pairing_loop. rewrite pairing_fold. reflexivity. Qed.

Lemma pairing_step_extinf (rt : Runtime) (line : string)
  (st : option ChannelEntry * list ChannelEntry) :
  is_extinf line = true ->
  pairing_step rt st line = (Some (fromPlaylistLine rt line), snd st).
Proof.
  intros H. destruct st as [c out]. unfold pairing_step.
  fold (is_extinf line). rewrite H. reflexivity.
Qed.

Lemma pairing_step_idle (rt : Runtime) (line : string)
  (st : option ChannelEntry * list ChannelEntry) :
  is_extinf line = false -> is_url_line line = false ->
  pairing_step rt st line = st.
Proof.
  intros He Hu. destruct st as [c out]. unfold pairing_step.
  fold (is_extinf line). rewrite He. destruct c; [|reflexivity].
  fold (is_url_line line). rewrite Hu. reflexivity.
Qed.

Lemma pairing_fold_idle (rt : Runtime) (rest : list string)
  (st : option ChannelEntry * list ChannelEntry) :
  Forall (fun l => is_extinf l = false /\ is_url_line l = false) rest ->
  fold_left (pairing_step rt) rest st = st.
Proof.
  intros H. revert st. induction H as [|l rest [He Hu] _ IH]; intros st.
  - reflexivity.
  - cbn [fold_left]. rewrite (pairing_step_idle rt l st He Hu). apply IH.
Qed.

(** C7: the records pushed by the pairing loop are exactly those of the
    entry lines that are followed, before the next [#EXTINF:] line or the
    end of the input, by a non-comment, non-blank line; that line, with
    its surrounding white space trimmed, is the record's [url].  An
    [#EXTINF:] line directly followed by another one adds no record and the
    second entry is handled as if the first were absent; an [#EXTINF:]
    line with nothing but comments and blank lines up to the end of the
    input adds no record. *)
Theorem pairing_loop_pairs (rt : Runtime) :
  (forall lines, pairing_loop rt lines = paired_records rt lines) /\
  (forall pre e rest u,
     is_extinf e = true -> following_url rest = Some u ->
     exists post,
       pairing_loop rt (pre ++ e :: rest) =
       pairing_loop rt pre ++ with_url rt (fromPlaylistLine rt e) u :: post) /\
  (forall pre e1 e2 rest,
     is_extinf e1 = true -> is_extinf e2 = true ->
     pairing_loop rt (pre ++ e1 :: e2 :: rest)
     = pairing_loop rt (pre ++ e2 :: rest)) /\
  (forall pre e rest,
     is_extinf e = true ->
     Forall (fun l => is_extinf l = false /\ is_url_line l = false) rest ->
     pairing_loop rt (pre ++ e :: rest) = pairing_loop rt pre).
Proof.
  split; [apply pairing_loop_spec|]. split; [|split].
  - intros pre e rest u He Hu. unfold pairing_loop.
    rewrite fold_left_app. cbn [fold_left].
    rewrite (pairing_step_extinf rt e _ He).
    rewrite pairing_fold, Hu. eauto.
  - intros pre e1 e2 rest H1 H2. unfold pairing_loop.
    rewrite !fold_left_app. cbn [fold_left].
    rewrite (pairing_step_extinf rt e1 _ H1).
    rewrite !(pairing_step_extinf rt e2 _ H2). reflexivity.
  - intros pre e rest He Hrest. unfold pairing_loop.
    rewrite fold_left_app. cbn [fold_left].
    rewrite (pairing_fold_idle rt rest _ Hrest).
    rewrite (pairing_step_extinf rt e _ He). reflexivity.
Qed.

Lemma pairing_loop_pairs_witness :
  pairing_loop sample_runtime sample_lines
  = [with_url sample_runtime
       (fromPlaylistLine sample_runtime "#EXTINF:-1,Beta")
       "http://host/beta.m3u8"].
Proof.
  destruct (pairing_loop_pairs sample_runtime) as [_ [_ [Hdouble Hlast]]].
  pose proof (Hdouble ["#EXTM3U"] "#EXTINF:-1,Alpha" "#EXTINF:-1,Beta"
                ["#EXTVLCOPT:network-caching=1000";
                 "  http://host/beta.m3u8 "; "#EXTINF:-1,Gamma"; ""]
                eq_refl eq_refl) as H1.
  pose proof (Hlast ["#EXTM3U"; "#EXTINF:-1,Beta";
                     "#EXTVLCOPT:network-caching=1000";
                     "  http://host/beta.m3u8 "]
                "#EXTINF:-1,Gamma" [""] eq_refl
                ltac:(repeat constructor))
    as H2.
  change (pairing_loop sample_runtime sample_lines) with
    (pairing_loop sample_runtime
       (["#EXTM3U"] ++ "#EXTINF:-1,Alpha" :: "#EXTINF:-1,Beta" ::
        ["#EXTVLCOPT:network-caching=1000";
         "  http://host/beta.m3u8 "; "#EXTINF:-1,Gamma"; ""])).
  rewrite H1.
  change (["#EXTM3U"] ++ "#EXTINF:-1,Beta" ::
          ["#EXTVLCOPT:network-caching=1000";
           "  http://host/beta.m3u8 "; "#EXTINF:-1,Gamma"; ""])
    with (["#EXTM3U"; "#EXTINF:-1,Beta";
           "#EXTVLCOPT:network-caching=1000";
           "  http://host/beta.m3u8 "] ++ "#EXTINF:-1,Gamma" :: [""]).
  rewrite H2. reflexivity.
Defined.

(* ===================================================================== *)
(** ** The map of the reconciliation *)
(* ===================================================================== *)

Lemma map_get_set_eq (k : string) (v : Ref) (m : ChannelMap) :
  map_get k (map_set k v m) = Some v.
Proof.
  induction m as [|[k' v'] m IH]; cbn.
  - rewrite String.eqb_refl. reflexivity.
  - destruct (String.eqb_spec k k') as [->|Hne]; cbn.
    + rewrite String.eqb_refl. reflexivity.
    + destruct (String.eqb_spec k k'); [contradiction | exact IH].
Qed.

Lemma map_get_set_ne (k k' : string) (v : Ref) (m : ChannelMap) :
  k <> k' -> map_get k' (map_set k v m) = map_get k' m.
Proof.
  intros Hne. induction m as [|[k0 v0] m IH]; cbn.
  - destruct (String.eqb_spec k' k); [congruence | reflexivity].
  - destruct (String.eqb_spec k k0) as [->|Hk]; cbn.
    + destruct (String.eqb_spec k' k0); [congruence | reflexivity].
    + destruct (String.eqb_spec k' k0); [reflexivity | exact IH].
Qed.

Lemma map_get_In (k : string) (r : Ref) (m : ChannelMap) :
  map_get k m = Some r -> In (k, r) m.
Proof.
  induction m as [|[k' v'] m IH]; cbn; [discriminate|].
  destruct (String.eqb_spec k k') as [->|Hne].
  - intros [= ->]. left. reflexivity.
  - intros H. right. exact (IH H).
Qed.

Lemma map_get_None_keys (k : string) (m : ChannelMap) :
  map_get k m = None <-> ~ In k (map_keys m).
Proof.
  induction m as [|[k' v'] m IH]; cbn.
  - split; [intros _ [] | reflexivity].
  - destruct (String.eqb_spec k k') as [->|Hne].
    + split; [discriminate | intros H; exfalso; apply H; left; reflexivity].
    + rewrite IH. split.
      * intros H [Heq|Hin]; [congruence | exact (H Hin)].
      * intros H Hin. apply H. right. exact Hin.
Qed.

Lemma map_set_In (k : string) (v : Ref) (m : ChannelMap) (k' : string)
  (r : Ref) :
  In (k', r) (map_set k v m) -> (k', r) = (k, v) \/ In (k', r) m.
Proof.
  induction m as [|[k0 v0] m IH]; cbn.
  - intros [H|[]]. left. symmetry. exact H.
  - destruct (String.eqb_spec k k0) as [->|Hne]; cbn.
    + intros [H|H]; [left; symmetry; exact H | right; right; exact H].
    + intros [H|H]; [right; left; exact H|].
      destruct (IH H) as [Heq|Hin]; [left; exact Heq | right; right; exact Hin].
Qed.


Lemma map_set_length_old (k : string) (v r : Ref) (m : ChannelMap) :
  map_get k m = Some r -> length (map_set k v m) = length m.
Proof.
  induction m as [|[k0 v0] m IH]; cbn; [discriminate|].
  destruct (String.eqb_spec k k0); [reflexivity|].
  intros H. cbn. rewrite (IH H). reflexivity.
Qed.

Lemma map_set_new_app (k : string) (v : Ref) (m : ChannelMap) :
  map_get k m = None -> map_set k v m = m ++ [(k, v)].
Proof.
  induction m as [|[k0 v0] m IH]; cbn; [reflexivity|].
  destruct (String.eqb_spec k k0); [discriminate|].
  intros H. rewrite (IH H). reflexivity.
Qed.

Lemma map_set_keys_old (k : string) (v r : Ref) (m : ChannelMap) :
  map_get k m = Some r -> map_keys (map_set k v m) = map_keys m.
Proof.
  induction m as [|[k0 v0] m IH]; cbn; [discriminate|].
  destruct (String.eqb_spec k k0) as [->|Hne]; [reflexivity|].
  intros H. cbn. f_equal. exact (IH H).
Qed.

Lemma map_set_keys_NoDup (k : string) (v : Ref) (m : ChannelMap) :
  NoDup (map_keys m) -> NoDup (map_keys (map_set k v m)).
Proof.
  intros Hnd. destruct (map_get k m) as [r|] eqn:Hget.
  - rewrite (map_set_keys_old k v r m Hget). exact Hnd.
  - rewrite (map_set_new_app k v m Hget). unfold map_keys.
    rewrite map_app. cbn [map fst].
    apply NoDup_app. split; [exact Hnd|]. split.
    + intros x Hx Hin. apply list_elem_of_In in Hx, Hin.
      destruct Hin as [<-|[]].
      apply map_get_None_keys in Hget. exact (Hget Hx).
    + apply NoDup_singleton.
Qed.

Lemma map_set_values_In (k : string) (v : Ref) (m : ChannelMap) (r : Ref) :
  In r (map_values (map_set k v m)) -> r = v \/ In r (map_values m).
Proof.
  unfold map_values. intros H. apply in_map_iff in H.
  destruct H as [[k' r'] [Hr Hin]]. cbn in Hr. subst r'.
  destruct (map_set_In _ _ _ _ _ Hin) as [Heq|Hin'].
  - left. congruence.
  - right. apply in_map_iff. exists (k', r). auto.
Qed.

Lemma map_set_values_NoDup (k : string) (v : Ref) (m : ChannelMap) :
  ~ In v (map_values m) -> NoDup (map_values m) ->
  NoDup (map_values (map_set k v m)).
Proof.
  unfold map_values.
  induction m as [|[k0 v0] m IH]; cbn; intros Hv Hnd.
  - apply NoDup_singleton.
  - apply NoDup_cons in Hnd. destruct Hnd as [Hv0 Hnd].
    destruct (String.eqb_spec k k0) as [->|Hne]; cbn.
    + apply NoDup_cons. split; [|exact Hnd].
      intros Hin. apply Hv. right. apply list_elem_of_In. exact Hin.
    + apply NoDup_cons. split.
      * intros Hin. apply list_elem_of_In in Hin.
        destruct (map_set_values_In k v m v0 Hin) as [->|Hin'].
        -- apply Hv. left. reflexivity.
        -- apply Hv0. apply list_elem_of_In. exact Hin'.
      * apply IH; [|exact Hnd]. intros Hin. apply Hv. right. exact Hin.
Qed.

Lemma indexOf_seq (n m i : nat) :
  i < m -> indexOf (seq n m) (n + i) = Z.of_nat i.
Proof.
  revert n i. induction m as [|m IH]; intros n i Hi; [lia|].
  cbn [seq indexOf]. destruct i as [|i].
  - rewrite Nat.add_0_r, Nat.eqb_refl. reflexivity.
  - destruct (Nat.eqb_spec n (n + S i)) as [Heq|_]; [lia|].
    replace (n + S i) with (S n + i) by lia.
    rewrite IH by lia.
    destruct (Z.ltb_spec (Z.of_nat i) 0); lia.
Qed.

(* ===================================================================== *)
(** ** Invariants of the reconciliation *)
(* ===================================================================== *)

Lemma map_values_In (r : Ref) (m : ChannelMap) :
  In r (map_values m) -> exists k, In (k, r) m.
Proof.
  unfold map_values. intros H. apply in_map_iff in H.
  destruct H as [[k r'] [Hr Hin]]. cbn in Hr. subst r'. eauto.
Qed.

Lemma map_ok_weaken (existing : list ChannelEntry) (b b' : nat)
  (m : ChannelMap) :
  b <= b' -> map_ok existing b m -> map_ok existing b' m.
Proof.
  intros Hb Hok k r Hin. destruct (Hok k r Hin) as [Hlt Hex].
  split; [lia | exact Hex].
Qed.

Lemma same_identity_refl (c : ChannelEntry) : same_identity c c.
Proof. repeat split. Qed.

Lemma same_identity_update (ex p c0 : ChannelEntry) :
  same_identity ex c0 -> same_identity (update_existing ex p) c0.
Proof. intros H. exact H. Qed.

Lemma index_fold_ok (existing pl : list ChannelEntry) (rs : list Ref)
  (m : ChannelMap) :
  (forall r, In r rs -> r < length existing) ->
  NoDup rs ->
  (forall r, In r rs -> ~ In r (map_values m)) ->
  map_ok existing (length existing) m ->
  NoDup (map_keys m) -> NoDup (map_values m) ->
  let m' := fold_left (index_step (existing ++ pl)) rs m in
  map_ok existing (length existing) m' /\
  NoDup (map_keys m') /\ NoDup (map_values m').
Proof.
  revert m. induction rs as [|r rs IH]; intros m Hlt Hnd Hfresh Hok Hk Hv.
  - cbn. auto.
  - cbn [fold_left]. apply NoDup_cons in Hnd. destruct Hnd as [Hr Hnd].
    assert (Hrlt : r < length existing) by (apply Hlt; left; reflexivity).
    assert (Hstep : index_step (existing ++ pl) m r =
                    match existing !! r with
                    | Some ch => if JsString.truthy (tvg_id ch)
                                 then map_set (tvg_id ch) r m else m
                    | None => m
                    end).
    { unfold index_step. rewrite (lookup_app_l _ _ _ Hrlt). reflexivity. }
    rewrite Hstep. clear Hstep.
    destruct (existing !! r) as [ch|] eqn:Hch.
    2:{ apply IH; auto. intros r' Hin. apply Hlt. right. exact Hin.
        intros r' Hin. apply Hfresh. right. exact Hin. }
    destruct (JsString.truthy (tvg_id ch)) eqn:Ht.
    2:{ apply IH; auto. intros r' Hin. apply Hlt. right. exact Hin.
        intros r' Hin. apply Hfresh. right. exact Hin. }
    apply IH.
    + intros r' Hin. apply Hlt. right. exact Hin.
    + exact Hnd.
    + intros r' Hin Hin'.
      destruct (map_set_values_In _ _ _ _ Hin') as [->|Hold].
      * apply Hr. apply list_elem_of_In. exact Hin.
      * exact (Hfresh r' (or_intror Hin) Hold).
    + intros k r' Hin.
      destruct (map_set_In _ _ _ _ _ Hin) as [Heq|Hold].
      * injection Heq as -> ->. split; [exact Hrlt|].
        intros _. exists ch. split; [exact Hch|]. split; [reflexivity|].
        intros Hempty. rewrite Hempty in Ht. discriminate.
      * exact (Hok k r' Hold).
    + apply map_set_keys_NoDup. exact Hk.
    + apply map_set_values_NoDup; [|exact Hv].
      apply Hfresh. left. reflexivity.
Qed.

Lemma indexed_inv (existing pl : list ChannelEntry) :
  merge_inv existing pl 0 (indexed existing pl).
Proof.
  destruct (index_fold_ok existing pl (existing_refs existing) [])
    as [Hok [Hk Hv]].
  - intros r Hin. apply in_seq in Hin. lia.
  - apply NoDup_ListNoDup, seq_NoDup.
  - intros r _ [].
  - intros k r [].
  - apply NoDup_nil_2.
  - apply NoDup_nil_2.
  - constructor; cbn [indexed heap channelMap].
    + apply length_app.
    + intros j _. rewrite lookup_app_r by lia. f_equal. lia.
    + intros r c0 H. exists c0. split; [exact H | apply same_identity_refl].
    + rewrite Nat.add_0_r. exact Hok.
    + exact Hk.
    + exact Hv.
Qed.

Lemma merge_inv_idle (existing pl : list ChannelEntry) (i : nat)
  (st : MergeState) :
  merge_inv existing pl i st -> merge_inv existing pl (S i) st.
Proof.
  intros [Hlen Hpend Hid Hmap Hk Hv]. constructor; auto.
  - intros j Hj. apply Hpend. lia.
  - eapply map_ok_weaken; [|exact Hmap]. lia.
Qed.

Lemma merge_step_inv (existing pl : list ChannelEntry) (i : nat)
  (st : MergeState) :
  merge_inv existing pl i st ->
  merge_inv existing pl (S i)
    (merge_step (playlist_refs existing pl) st (length existing + i)).
Proof.
  intros Hinv. pose proof Hinv as [Hlen Hpend Hid Hmap Hk Hv].
  unfold merge_step.
  destruct (heap st !! (length existing + i)) as [plCh|] eqn:Hpl;
    [|apply merge_inv_idle; exact Hinv].
  destruct (if JsString.truthy (tvg_id plCh)
            then map_get (tvg_id plCh) (channelMap st) else None)
    as [re|] eqn:Hget.
  - destruct (heap st !! re) as [ex|] eqn:Hex;
      [|apply merge_inv_idle; exact Hinv].
    assert (Hre : re < length existing + i).
    { destruct (JsString.truthy (tvg_id plCh)); [|discriminate].
      apply map_get_In in Hget. exact (proj1 (Hmap _ _ Hget)). }
    constructor; cbn [heap channelMap].
    + rewrite length_insert. exact Hlen.
    + intros j Hj. rewrite list_lookup_insert_ne by lia. apply Hpend. lia.
    + intros r c0 Hr. destruct (Hid r c0 Hr) as [c [Hc Hsame]].
      destruct (Nat.eq_dec re r) as [<-|Hne].
      * exists (update_existing ex plCh). split.
        -- apply list_lookup_insert_eq. eapply lookup_lt_Some. exact Hex.
        -- assert (c = ex) by congruence. subst c.
           apply same_identity_update. exact Hsame.
      * exists c. rewrite list_lookup_insert_ne by exact Hne. auto.
    + eapply map_ok_weaken; [|exact Hmap]. lia.
    + exact Hk.
    + exact Hv.
  - constructor; cbn [heap channelMap].
    + exact Hlen.
    + intros j Hj. apply Hpend. lia.
    + exact Hid.
    + intros k r Hin.
      destruct (map_set_In _ _ _ _ _ Hin) as [Heq|Hold].
      * injection Heq as -> ->. split; [lia|]. intros Hlt. lia.
      * destruct (Hmap k r Hold) as [Hlt Hexi]. split; [lia | exact Hexi].
    + apply map_set_keys_NoDup. exact Hk.
    + apply map_set_values_NoDup; [|exact Hv].
      intros Hin. apply map_values_In in Hin. destruct Hin as [k Hin].
      pose proof (proj1 (Hmap _ _ Hin)). lia.
Qed.

Lemma playlist_refs_lookup (existing pl : list ChannelEntry) (i : nat) :
  i < length pl ->
  playlist_refs existing pl !! i = Some (length existing + i).
Proof. intros Hi. apply lookup_seq. auto. Qed.

Lemma merged_upto_S (existing pl : list ChannelEntry) (i : nat) :
  i < length pl ->
  merged_upto (S i) existing pl =
  merge_step (playlist_refs existing pl) (merged_upto i existing pl)
    (length existing + i).
Proof.
  intros Hi. unfold merged_upto.
  rewrite (take_S_r _ _ _ (playlist_refs_lookup existing pl i Hi)).
  rewrite fold_left_app. reflexivity.
Qed.

Lemma merged_upto_inv (existing pl : list ChannelEntry) (i : nat) :
  i <= length pl -> merge_inv existing pl i (merged_upto i existing pl).
Proof.
  induction i as [|i IH]; intros Hi.
  - apply indexed_inv.
  - rewrite merged_upto_S by lia. apply merge_step_inv. apply IH. lia.
Qed.

Lemma reconcile_merged_upto (existing pl : list ChannelEntry) :
  reconcile existing pl = merged_upto (length pl) existing pl.
Proof.
  unfold reconcile, merged_upto. rewrite take_ge; [reflexivity|].
  unfold playlist_refs. rewrite length_seq. lia.
Qed.

Lemma reconcile_inv (existing pl : list ChannelEntry) :
  merge_inv existing pl (length pl) (reconcile existing pl).
Proof. rewrite reconcile_merged_upto. apply merged_upto_inv. lia. Qed.

Lemma omap_lookup_length (h : list ChannelEntry) (rs : list nat) :
  (forall r, In r rs -> r < length h) ->
  length (omap (fun r => h !! r) rs) = length rs.
Proof.
  induction rs as [|r rs IH]; intros Hlt; [reflexivity|].
  cbn [omap list_omap].
  destruct (lookup_lt_is_Some_2 h r (Hlt r (or_introl eq_refl))) as [c Hc].
  rewrite Hc. cbn [length]. f_equal. apply IH.
  intros r' Hin. apply Hlt. right. exact Hin.
Qed.

Lemma mergedChannels_length (existing pl : list ChannelEntry) (i : nat)
  (st : MergeState) :
  i <= length pl ->
  merge_inv existing pl i st ->
  length (mergedChannels st) = length (channelMap st).
Proof.
  intros Hi [Hlen _ _ Hmap _ _]. unfold mergedChannels.
  rewrite omap_lookup_length.
  - unfold map_values. apply length_map.
  - intros r Hin. apply map_values_In in Hin. destruct Hin as [k Hin].
    pose proof (proj1 (Hmap _ _ Hin)). lia.
Qed.

Lemma map_get_values_inj (k1 k2 : string) (r : Ref) (m : ChannelMap) :
  NoDup (map_values m) ->
  map_get k1 m = Some r -> map_get k2 m = Some r -> k1 = k2.
Proof.
  unfold map_values.
  induction m as [|[k v] m IH]; cbn; [discriminate|].
  intros Hnd. apply NoDup_cons in Hnd. destruct Hnd as [Hv Hnd].
  destruct (String.eqb_spec k1 k) as [->|H1], (String.eqb_spec k2 k) as [->|H2].
  - reflexivity.
  - intros [= ->] Hget. exfalso. apply Hv. apply list_elem_of_In.
    apply map_get_In in Hget. apply in_map_iff. exists (k2, r). auto.
  - intros Hget [= ->]. exfalso. apply Hv. apply list_elem_of_In.
    apply map_get_In in Hget. apply in_map_iff. exists (k1, r). auto.
  - apply IH. exact Hnd.
Qed.

Lemma pending_record (existing pl : list ChannelEntry) (i : nat)
  (p : ChannelEntry) :
  pl !! i = Some p ->
  heap (merged_upto i existing pl) !! (length existing + i) = Some p.
Proof.
  intros Hp. pose proof (lookup_lt_Some _ _ _ Hp) as Hi.
  destruct (merged_upto_inv existing pl i) as [_ Hpend _ _ _ _]; [lia|].
  rewrite Hpend by lia. exact Hp.
Qed.


Lemma truthy_ne (s : string) : s <> "" -> JsString.truthy s = true.
Proof. destruct s; [congruence | reflexivity]. Qed.

(* ===================================================================== *)
(** ** Reconciliation: unmatched playlist records *)
(* ===================================================================== *)


Lemma merged_upto_0 (existing pl : list ChannelEntry) :
  merged_upto 0 existing pl = indexed existing pl.
Proof. reflexivity. Qed.






(* ===================================================================== *)
(** ** Reconciliation: matched playlist records *)
(* ===================================================================== *)

(** A later playlist record with another [tvg_id] and another insertion
    key leaves the entry filed under [t] and its object as they are. *)
Lemma merge_step_elsewhere (existing pl : list ChannelEntry) (j : nat)
  (q : ChannelEntry) (t : string) (re : Ref) (v : ChannelEntry) :
  pl !! j = Some q ->
  tvg_id q <> t ->
  JsString.or_else (tvg_id q)
    (JsString.or_else (tvg_name q)
       ("playlist_" +:+ JsString.of_Z (Z.of_nat j))) <> t ->
  map_get t (channelMap (merged_upto j existing pl)) = Some re ->
  heap (merged_upto j existing pl) !! re = Some v ->
  map_get t (channelMap (merged_upto (S j) existing pl)) = Some re /\
  heap (merged_upto (S j) existing pl) !! re = Some v.
Proof.
  intros Hq Hid Hkey Hget Hv.
  pose proof (lookup_lt_Some _ _ _ Hq) as Hj.
  pose proof (pending_record existing pl j q Hq) as Hheap.
  destruct (merged_upto_inv existing pl j) as [_ _ _ _ _ Hnd]; [lia|].
  rewrite merged_upto_S by exact Hj.
  set (st := merged_upto j existing pl) in *.
  unfold merge_step. rewrite Hheap.
  destruct (if JsString.truthy (tvg_id q)
            then map_get (tvg_id q) (channelMap st) else None)
    as [rq|] eqn:Hmatch.
  - destruct (heap st !! rq) as [ex|] eqn:Hex; [|auto].
    cbn [heap channelMap]. split; [exact Hget|].
    rewrite list_lookup_insert_ne; [exact Hv|].
    intros ->. apply Hid.
    destruct (JsString.truthy (tvg_id q)); [|discriminate].
    exact (map_get_values_inj _ _ _ _ Hnd Hmatch Hget).
  - cbn [heap channelMap]. split; [|exact Hv].
    unfold insertion_key, playlist_refs. rewrite indexOf_seq by exact Hj.
    rewrite map_get_set_ne by exact Hkey. exact Hget.
Qed.

Lemma steps_elsewhere (existing pl : list ChannelEntry) (i : nat)
  (t : string) (re : Ref) (v : ChannelEntry) (d : nat) :
  i + d <= length pl ->
  (forall j q, i <= j -> j < i + d -> pl !! j = Some q ->
     tvg_id q <> t /\ playlist_key j q <> t) ->
  map_get t (channelMap (merged_upto i existing pl)) = Some re ->
  heap (merged_upto i existing pl) !! re = Some v ->
  map_get t (channelMap (merged_upto (i + d) existing pl)) = Some re /\
  heap (merged_upto (i + d) existing pl) !! re = Some v.
Proof.
  intros Hd Hsteps Hget Hv. induction d as [|d IH].
  - rewrite Nat.add_0_r. auto.
  - destruct IH as [Hg Hh]; [lia | |].
    { intros j q Hij Hj. apply Hsteps; [exact Hij | lia]. }
    replace (i + S d) with (S (i + d)) by lia.
    destruct (lookup_lt_is_Some_2 pl (i + d)) as [q Hq]; [lia|].
    destruct (Hsteps (i + d) q) as [Hid Hkey]; [lia | lia | exact Hq |].
    exact (merge_step_elsewhere existing pl (i + d) q t re v Hq Hid Hkey Hg Hh).
Qed.

Lemma later_steps_elsewhere (existing pl : list ChannelEntry) (i : nat)
  (t : string) (re : Ref) (v : ChannelEntry) :
  (forall j q, i <= j -> pl !! j = Some q ->
     tvg_id q <> t /\
     JsString.or_else (tvg_id q)
       (JsString.or_else (tvg_name q)
          ("playlist_" +:+ JsString.of_Z (Z.of_nat j))) <> t) ->
  map_get t (channelMap (merged_upto i existing pl)) = Some re ->
  heap (merged_upto i existing pl) !! re = Some v ->
  forall d, i + d <= length pl ->
  map_get t (channelMap (merged_upto (i + d) existing pl)) = Some re /\
  heap (merged_upto (i + d) existing pl) !! re = Some v.
Proof.
  intros Hlater Hget Hv d. induction d as [|d IH]; intros Hd.
  - rewrite Nat.add_0_r. auto.
  - destruct IH as [Hg Hh]; [lia|].
    replace (i + S d) with (S (i + d)) by lia.
    destruct (lookup_lt_is_Some_2 pl (i + d)) as [q Hq]; [lia|].
    destruct (Hlater (i + d) q) as [Hid Hkey]; [lia | exact Hq |].
    exact (merge_step_elsewhere existing pl (i + d) q t re v Hq Hid Hkey Hg Hh).
Qed.

(** The step of the merge loop for a playlist record whose non-empty
    [tvg_id] is the key of the map entry [re] at that turn: the object of
    that entry takes the [url] of the record, [group_title] and [country]
    where the record has them, and keeps its other fields; the map and
    every other object stay as they are. *)
Lemma merge_step_matched (existing pl : list ChannelEntry) (i : nat)
  (p : ChannelEntry) (re : Ref) :
  pl !! i = Some p ->
  tvg_id p <> "" ->
  map_get (tvg_id p) (channelMap (merged_upto i existing pl)) = Some re ->
  let st := merged_upto i existing pl in
  let st' := merged_upto (S i) existing pl in
  exists ex,
    heap st !! re = Some ex /\
    heap st' !! re = Some (update_existing ex p) /\
    url (update_existing ex p) = url p /\
    group_title (update_existing ex p)
      = (if JsString.truthy (group_title p)
         then group_title p else group_title ex) /\
    country (update_existing ex p)
      = (if JsString.truthy (country p) then country p else country ex) /\
    same_identity (update_existing ex p) ex /\
    channelMap st' = channelMap st /\
    (forall r, r <> re -> heap st' !! r = heap st !! r) /\
    (re < length existing ->
     exists ex0, existing !! re = Some ex0 /\ tvg_id ex0 = tvg_id p /\
                 same_identity ex ex0) /\
    ((forall j q, i < j -> pl !! j = Some q ->
        tvg_id q <> tvg_id p /\
        JsString.or_else (tvg_id q)
          (JsString.or_else (tvg_name q)
             ("playlist_" +:+ JsString.of_Z (Z.of_nat j))) <> tvg_id p) ->
     In (update_existing ex p) (mergedChannels (reconcile existing pl))).
Proof.
  intros Hp Hne Hget st st'.
  pose proof (lookup_lt_Some _ _ _ Hp) as Hi.
  pose proof (pending_record existing pl i p Hp) as Hheap.
  destruct (merged_upto_inv existing pl i) as [Hlen _ Hid Hmap _ _]; [lia|].
  fold st in Hheap, Hlen, Hid, Hmap, Hget.
  pose proof (map_get_In _ _ _ Hget) as Hin.
  destruct (Hmap _ _ Hin) as [Hre Hexisting].
  destruct (lookup_lt_is_Some_2 (heap st) re) as [ex Hex]; [lia|].
  assert (Hstep : st' = {| heap := <[re := update_existing ex p]> (heap st);
                           channelMap := channelMap st |}).
  { unfold st'. rewrite merged_upto_S by exact Hi. fold st.
    unfold merge_step. rewrite Hheap, (truthy_ne _ Hne), Hget, Hex.
    reflexivity. }
  assert (Hnew : heap st' !! re = Some (update_existing ex p)).
  { rewrite Hstep. cbn [heap]. apply list_lookup_insert_eq. lia. }
  exists ex.
  split; [exact Hex|]. split; [exact Hnew|].
  split; [reflexivity|]. split; [reflexivity|]. split; [reflexivity|].
  split; [apply same_identity_update, same_identity_refl|].
  split; [rewrite Hstep; reflexivity|].
  split.
  { intros r Hr. rewrite Hstep. cbn [heap].
    apply list_lookup_insert_ne. congruence. }
  split.
  { intros Hlt. destruct (Hexisting Hlt) as [ex0 [Hex0 [Htid _]]].
    exists ex0. split; [exact Hex0|]. split; [exact Htid|].
    destruct (Hid re ex0) as [c [Hc Hsame]].
    - rewrite lookup_app_l by exact Hlt. exact Hex0.
    - assert (c = ex) by congruence. subst c. exact Hsame. }
  intros Hlater.
  assert (Hget' : map_get (tvg_id p) (channelMap st') = Some re).
  { rewrite Hstep. exact Hget. }
  destruct (later_steps_elsewhere existing pl (S i) (tvg_id p) re
              (update_existing ex p)) with (d := length pl - S i)
    as [Hg Hh].
  - intros j q Hj Hq. apply (Hlater j q); [lia | exact Hq].
  - exact Hget'.
  - exact Hnew.
  - lia.
  - replace (S i + (length pl - S i)) with (length pl) in Hg, Hh by lia.
    rewrite <- reconcile_merged_upto in Hg, Hh.
    unfold mergedChannels. apply list_elem_of_In, list_elem_of_omap.
    exists re. split; [|exact Hh].
    apply list_elem_of_In. unfold map_values. apply in_map_iff.
    exists (tvg_id p, re). split; [reflexivity|].
    apply map_get_In. exact Hg.
Qed.

(** A playlist record that is not filed under [t] by its [tvg_name] or its
    position leaves the entry under [t] with its object. *)
Lemma merge_step_keeps_entry (existing pl : list ChannelEntry) (j : nat)
  (q : ChannelEntry) (t : string) (re : Ref) :
  pl !! j = Some q ->
  (tvg_id q = "" -> playlist_key j q <> t) ->
  map_get t (channelMap (merged_upto j existing pl)) = Some re ->
  map_get t (channelMap (merged_upto (S j) existing pl)) = Some re.
Proof.
  intros Hq Hkey Hget.
  pose proof (lookup_lt_Some _ _ _ Hq) as Hj.
  pose proof (pending_record existing pl j q Hq) as Hheap.
  rewrite merged_upto_S by exact Hj.
  set (st := merged_upto j existing pl) in *.
  unfold merge_step. rewrite Hheap.
  destruct (JsString.truthy (tvg_id q)) eqn:Htruthy.
  - destruct (map_get (tvg_id q) (channelMap st)) as [rq|] eqn:Hmatch.
    + destruct (heap st !! rq) as [ex|]; exact Hget.
    + cbn [channelMap]. unfold insertion_key.
      unfold JsString.or_else at 1. rewrite Htruthy.
      rewrite map_get_set_ne; [exact Hget|].
      intros Heq. rewrite Heq in Hmatch. congruence.
  - cbn [channelMap]. unfold insertion_key, playlist_refs.
    rewrite indexOf_seq by exact Hj.
    rewrite map_get_set_ne; [exact Hget|].
    apply Hkey. apply truthy_false_empty. exact Htruthy.
Qed.

Lemma earlier_steps_keep_entry (existing pl : list ChannelEntry) (t : string)
  (re : Ref) (i : nat) :
  i <= length pl ->
  (forall j q, j < i -> pl !! j = Some q -> tvg_id q = "" ->
     playlist_key j q <> t) ->
  map_get t (channelMap (indexed existing pl)) = Some re ->
  map_get t (channelMap (merged_upto i existing pl)) = Some re.
Proof.
  induction i as [|i IH]; intros Hi Hearlier Hget.
  - exact Hget.
  - destruct (lookup_lt_is_Some_2 pl i) as [q Hq]; [lia|].
    apply (merge_step_keeps_entry existing pl i q t re Hq).
    + apply (Hearlier i q); [lia | exact Hq].
    + apply IH; [lia | | exact Hget].
      intros j q' Hj. apply Hearlier. lia.
Qed.

(** C5, as stated, fails in two ways.  With the store record ["abc"] and
    two playlist records of that [tvg_id], both match the indexed record,
    but the merged record carries the [url] of the second one, not of the
    first.  With a playlist record without [tvg_id] whose [tvg_name] is
    ["abc"] ahead of the playlist record ["abc"], the first one takes the
    place of the store record in the map; the second one is then merged
    into it, and the fields of the store record, such as its [tvg_logo],
    are not part of the merged set. *)
Lemma matched_record_overwritten_or_displaced :
  (map_get "abc"
     (channelMap
        (indexed [sample_existing_abc]
           [sample_playlist_abc; sample_playlist_abc_alt])) = Some 0 /\
   mergedChannels
     (reconcile [sample_existing_abc]
        [sample_playlist_abc; sample_playlist_abc_alt])
   = [update_existing (update_existing sample_existing_abc sample_playlist_abc)
        sample_playlist_abc_alt] /\
   Forall (fun c => url c = "http://y/stream" /\ url c <> url sample_playlist_abc)
     (mergedChannels
        (reconcile [sample_existing_abc]
           [sample_playlist_abc; sample_playlist_abc_alt]))) /\
  (map_get "abc"
     (channelMap
        (indexed [sample_existing_abc]
           [sample_playlist_named_abc; sample_playlist_abc])) = Some 0 /\
   mergedChannels
     (reconcile [sample_existing_abc]
        [sample_playlist_named_abc; sample_playlist_abc])
   = [update_existing sample_playlist_named_abc sample_playlist_abc] /\
   Forall (fun c => tvg_logo c = "" /\ tvg_logo c <> tvg_logo sample_existing_abc)
     (mergedChannels
        (reconcile [sample_existing_abc]
           [sample_playlist_named_abc; sample_playlist_abc]))).
Proof.
  split.
  - split; [reflexivity|].
    assert (H : mergedChannels
                  (reconcile [sample_existing_abc]
                     [sample_playlist_abc; sample_playlist_abc_alt])
                = [update_existing
                     (update_existing sample_existing_abc sample_playlist_abc)
                     sample_playlist_abc_alt])
      by (vm_compute; reflexivity).
    split; [exact H|]. rewrite H.
    constructor; [|constructor]. split; [reflexivity | discriminate].
  - split; [reflexivity|].
    assert (H : mergedChannels
                  (reconcile [sample_existing_abc]
                     [sample_playlist_named_abc; sample_playlist_abc])
                = [update_existing sample_playlist_named_abc
                     sample_playlist_abc])
      by (vm_compute; reflexivity).
    split; [exact H|]. rewrite H.
    constructor; [|constructor]. split; [reflexivity | discriminate].
Qed.

(** C5 (amended): let the non-empty [tvg_id] of the playlist record [p] at
    position [i] be the [tvg_id] of the indexed existing record [ex0], and
    let no earlier record of the batch without [tvg_id] be filed under
    that key.  When the merge loop reaches [p], the object [ex] of that
    entry is still the object of the existing record, with the [xui_id],
    [tvg_id], [tvg_name], [tvg_logo] and [created_at] of [ex0], and it is
    [ex0] itself when no earlier record of the batch carries that
    [tvg_id].  The step gives it the [url] of [p] whatever it is, and
    [group_title] and [country] from [p] where these are not empty; it
    keeps its own otherwise, and keeps the other fields; the map and every
    other object stay as they are.  When no later record of the batch
    carries that [tvg_id] or is filed under it, this merged record is part
    of the merged set that is written. *)
Theorem matched_record_merged (existing pl : list ChannelEntry) (i : nat)
  (p : ChannelEntry) (re : Ref) :
  pl !! i = Some p ->
  tvg_id p <> "" ->
  map_get (tvg_id p) (channelMap (indexed existing pl)) = Some re ->
  (forall j q, j < i -> pl !! j = Some q -> tvg_id q = "" ->
     playlist_key j q <> tvg_id p) ->
  let st := merged_upto i existing pl in
  let st' := merged_upto (S i) existing pl in
  exists ex0 ex,
    existing !! re = Some ex0 /\
    tvg_id ex0 = tvg_id p /\
    map_get (tvg_id p) (channelMap st) = Some re /\
    heap st !! re = Some ex /\
    same_identity ex ex0 /\
    ((forall j q, j < i -> pl !! j = Some q -> tvg_id q <> tvg_id p) ->
     ex = ex0) /\
    heap st' !! re = Some (update_existing ex p) /\
    url (update_existing ex p) = url p /\
    group_title (update_existing ex p)
      = (if JsString.truthy (group_title p)
         then group_title p else group_title ex) /\
    country (update_existing ex p)
      = (if JsString.truthy (country p) then country p else country ex) /\
    same_identity (update_existing ex p) ex0 /\
    channelMap st' = channelMap st /\
    (forall r, r <> re -> heap st' !! r = heap st !! r) /\
    ((forall j q, i < j -> pl !! j = Some q ->
        tvg_id q <> tvg_id p /\ playlist_key j q <> tvg_id p) ->
     In (update_existing ex p) (mergedChannels (reconcile existing pl))).
Proof.
  intros Hp Hne Hindexed Hearlier st st'.
  pose proof (lookup_lt_Some _ _ _ Hp) as Hi.
  assert (Hget : map_get (tvg_id p) (channelMap st) = Some re).
  { apply earlier_steps_keep_entry; [lia | exact Hearlier | exact Hindexed]. }
  destruct (indexed_inv existing pl) as [_ _ _ Hmap0 _ _].
  destruct (Hmap0 _ _ (map_get_In _ _ _ Hindexed)) as [Hre0 Hexisting].
  rewrite Nat.add_0_r in Hre0.
  destruct (Hexisting Hre0) as [ex0 [Hex0 [Htid _]]].
  destruct (merge_step_matched existing pl i p re Hp Hne Hget)
    as [ex [Hex [Hnew [Hurl [Hgroup [Hcountry [_ [Hsame_map [Hothers
         [Horigin Hfinal]]]]]]]]]].
  destruct (Horigin Hre0) as [ex0' [Hex0' [_ Hsame]]].
  assert (ex0' = ex0) by congruence. subst ex0'.
  exists ex0, ex.
  split; [exact Hex0|]. split; [exact Htid|]. split; [exact Hget|].
  split; [exact Hex|]. split; [exact Hsame|].
  split.
  { intros Hfirst.
    destruct (steps_elsewhere existing pl 0 (tvg_id p) re ex0 i)
      as [_ Hh].
    - cbn [Nat.add]. lia.
    - intros j q _ Hlt Hq. cbn [Nat.add] in Hlt.
      split; [exact (Hfirst j q Hlt Hq)|].
      destruct (JsString.truthy (tvg_id q)) eqn:Htruthy.
      + unfold playlist_key, JsString.or_else at 1. rewrite Htruthy.
        exact (Hfirst j q Hlt Hq).
      + apply (Hearlier j q Hlt Hq).
        apply truthy_false_empty. exact Htruthy.
    - exact Hindexed.
    - rewrite merged_upto_0. unfold indexed. cbn [heap].
      rewrite lookup_app_l by exact Hre0. exact Hex0.
    - change (0 + i) with i in Hh. unfold st in Hex. congruence. }
  split; [exact Hnew|]. split; [exact Hurl|]. split; [exact Hgroup|].
  split; [exact Hcountry|].
  split; [apply same_identity_update; exact Hsame|].
  split; [exact Hsame_map|]. split; [exact Hothers|].
  exact Hfinal.
Qed.

Lemma matched_record_merged_witness :
  In {| xui_id := Num 102; tvg_id := "abc"; tvg_name := "102 Doctor Who";
        tvg_logo := "http://img/drwho.png"; group_title := "Drama";
        url := "http://x/stream";
        created_at := "2023-12-31T00:00:00.000Z"; country := "GB" |}
     (mergedChannels
        (reconcile [sample_existing_no_id; sample_existing_abc]
           [sample_playlist_anonymous; sample_playlist_abc;
            sample_playlist_new])).
Proof.
  assert (Hearlier : forall j q, j < 1 ->
            [sample_playlist_anonymous; sample_playlist_abc;
             sample_playlist_new] !! j = Some q ->
            tvg_id q = "" -> playlist_key j q <> tvg_id sample_playlist_abc).
  { intros j q Hj Hq _. destruct j as [|j]; [|lia].
    injection Hq as <-. vm_compute. discriminate. }
  destruct (matched_record_merged
              [sample_existing_no_id; sample_existing_abc]
              [sample_playlist_anonymous; sample_playlist_abc;
               sample_playlist_new]
              1 sample_playlist_abc 1 eq_refl ltac:(discriminate) eq_refl
              Hearlier)
    as [ex0 [ex [_ [_ [_ [Hex [_ [_ [_ [_ [_ [_ [_ [_ [_ Hfinal]]]]]]]]]]]]]]].
  assert (Hsame : Some ex = Some sample_existing_abc)
    by (rewrite <- Hex; vm_compute; reflexivity).
  injection Hsame as ->.
  apply Hfinal. intros j q Hj Hq.
  destruct j as [|[|[|j]]]; [lia | lia | | discriminate Hq].
  injection Hq as <-. split; vm_compute; discriminate.
Defined.

(* ===================================================================== *)
(** ** Running the refresh steps *)
(* ===================================================================== *)

Ltac world_simpl :=
  unfold clearChannels, addChannels, clearProgrammes, addProgrammes,
    getChannelEntries, clearCache, scheduleIPTVRefresh, writeFile, when,
    call in *;
  unfold exec, outcome, bind, emit, ask, modify, ret in *;
  cbn [fst snd state trace store_channels store_programmes fs_files
       cache_purges scheduler_arms set_channels set_programmes set_file
       count_purge count_arm negb andb orb is_none nonempty] in *.

Ltac world_case :=
  match goal with
  | |- context [match ?x with _ => _ end] =>
      lazymatch x with
      | context [match _ with _ => _ end] => fail
      | _ => destruct x eqn:?
      end
  end.

Ltac nonempty_cases :=
  repeat match goal with
         | H : nonempty ?l = _ |- _ =>
             destruct l eqn:?; cbn [nonempty] in H; try discriminate H; clear H
         end.

Ltac trace_ext :=
  first [ exists []; split; [symmetry; apply app_nil_r | reflexivity]
        | eexists; split; [repeat rewrite <- app_assoc; reflexivity
                          | reflexivity] ].

Example fillDbChannelsFromPlaylist_drops_on_sample :
  store_channels
    (state (exec (fillDbChannelsFromPlaylist sample_runtime
                    cached_collaborators false) sample_world))
  = [sample_existing_abc].
Proof. vm_compute. reflexivity. Qed.





Lemma fillDbFromXMLTV_stops (rt : Runtime) (co : Collaborators) (force : bool)
  (w : World) :
  xmltv_stops_before_parsing rt co force (state w) = true ->
  let w' := exec (fillDbFromXMLTV rt co force) w in
  state w' = state w /\
  exists t, trace w' = trace w ++ t /\
            forallb (fun e => negb (is_write e)) t = true.
Proof.
  intros Hstop w'. subst w'.
  unfold xmltv_stops_before_parsing, obtained in Hstop.
  unfold fillDbFromXMLTV. world_simpl.
  repeat (world_case; world_simpl); try discriminate.
  all: split; [reflexivity|].
  all: trace_ext.
Qed.

Lemma fillDbFromXMLTV_empty_result (rt : Runtime) (co : Collaborators)
  (force : bool) (w : World) (d : XMLTVData) :
  xmltv_parsed rt co force (state w) = Some d ->
  let w' := exec (fillDbFromXMLTV rt co force) w in
  exists t, trace w' = trace w ++ t /\
    (channels d = [] ->
     store_channels (state w') = store_channels (state w) /\
     forallb (fun e => negb (is_channel_write e)) t = true) /\
    (programmes d = [] ->
     store_programmes (state w') = store_programmes (state w) /\
     forallb (fun e => negb (is_programme_write e)) t = true) /\
    (channels d <> [] -> store_channels (state w') = channels d) /\
    (programmes d <> [] -> store_programmes (state w') = programmes d).
Proof.
  intros Hd w'. subst w'. unfold xmltv_parsed, obtained in Hd.
  unfold fillDbFromXMLTV. world_simpl.
  repeat (world_case; world_simpl); try discriminate.
  all: injection Hd as <-.
  all: eexists; split; [repeat rewrite <- app_assoc; reflexivity|].
  all: nonempty_cases.
  all: repeat split; intros; cbn [app]; try reflexivity; try congruence.
  all: repeat match goal with
         | H : ?x = _ |- context [?x] => rewrite H
         end; try reflexivity; try congruence.
Qed.

Lemma fillDbChannelsFromPlaylist_no_content (rt : Runtime)
  (co : Collaborators) (force : bool) (w : World) (playlist : string) :
  playlist_source rt = Some playlist ->
  obtained co force "playlist.m3u" playlist (state w) = None ->
  let w' := exec (fillDbChannelsFromPlaylist rt co force) w in
  state w' = state w /\
  exists t, trace w' = trace w ++ t /\
            forallb (fun e => negb (is_store_write e)) t = true.
Proof.
  intros Hsrc Hnone w'. subst w'. unfold playlist_source, obtained in *.
  unfold fillDbChannelsFromPlaylist. world_simpl.
  destruct (PLAYLIST (config rt)) as [pl|]; [|discriminate].
  destruct (JsString.truthy pl); [|discriminate].
  injection Hsrc as ->. world_simpl.
  repeat (world_case; world_simpl); try discriminate; try congruence.
  all: split; [reflexivity|].
  all: trace_ext.
Qed.

Lemma fillDbChannelsFromPlaylist_store (rt : Runtime) (co : Collaborators)
  (force : bool) (w : World) (playlist content : string) :
  playlist_source rt = Some playlist ->
  obtained co force "playlist.m3u" playlist (state w) = Some content ->
  let merged :=
    mergedChannels
      (reconcile (store_channels (state w)) (parsePlaylist rt content)) in
  store_channels (state (exec (fillDbChannelsFromPlaylist rt co force) w))
  = (if nonempty merged then merged else store_channels (state w)).
Proof.
  intros Hsrc Hsome merged. subst merged. unfold playlist_source, obtained in *.
  unfold fillDbChannelsFromPlaylist. world_simpl.
  destruct (PLAYLIST (config rt)) as [pl|]; [|discriminate].
  destruct (JsString.truthy pl); [|discriminate].
  injection Hsrc as ->. world_simpl.
  destruct (getCachedFile co "playlist.m3u" (state w)) as [c|] eqn:Hc;
    world_simpl.
  - destruct force; world_simpl.
    + rewrite Hsome. world_simpl.
      destruct (mergedChannels _); reflexivity.
    + injection Hsome as ->. world_simpl.
      destruct (mergedChannels _); reflexivity.
  - rewrite Hsome. world_simpl.
    destruct (mergedChannels _); reflexivity.
Qed.

Lemma fillDbProgrammes_fresh (rt : Runtime) (co : Collaborators) (w : World) :
  isProgrammeDataStale co (state w) = false ->
  state (exec (fillDbProgrammes rt co false) w) = state w.
Proof.
  intros Hfresh. unfold fillDbProgrammes. world_simpl.
  rewrite Hfresh. reflexivity.
Qed.

Lemma fillDbProgrammes_failure (rt : Runtime) (co : Collaborators)
  (force : bool) (w : World) :
  isProgrammeDataStale co (state w) || force = true ->
  obtained co force "xmltv.xml" (XMLTV (config rt))
    (set_programmes [] (state w)) = None
  \/ getCachedFilePath co "xmltv.xml" (set_programmes [] (state w)) = None ->
  let w' := exec (fillDbProgrammes rt co force) w in
  state w' = set_programmes [] (state w) /\
  exists t, trace w' = trace w ++ EvIsProgrammeDataStale :: EvClearProgrammes :: t.
Proof.
  intros Hgo Hfail w'. subst w'. unfold obtained in Hfail.
  unfold fillDbProgrammes. world_simpl. rewrite Hgo. world_simpl.
  unfold set_programmes in *. world_simpl.
  destruct Hfail as [Hnone | Hpath].
  - repeat (world_case; world_simpl); try discriminate; try congruence.
    all: split; [reflexivity|].
    all: eexists; repeat rewrite <- app_assoc; reflexivity.
  - repeat (world_case; world_simpl); try discriminate; try congruence.
    all: split; [reflexivity|].
    all: eexists; repeat rewrite <- app_assoc; reflexivity.
Qed.

(* ===================================================================== *)
(** ** Failure modes of the refresh steps *)
(* ===================================================================== *)

(** C1, as stated, fails for [fillDbProgrammes]: with stale programmes, an
    empty cache and an exhausted fetch, the programme store held one record
    before the run and is empty after it. *)
Lemma fillDbProgrammes_failed_fetch_clears :
  obtained offline_collaborators false "xmltv.xml" (XMLTV sample_config)
    (state sample_world) = None /\
  store_programmes (state sample_world) = [sample_stored_programme] /\
  store_programmes
    (state (exec (fillDbProgrammes sample_runtime offline_collaborators false)
              sample_world)) = [] /\
  store_programmes
    (state (exec (fillDbProgrammes sample_runtime offline_collaborators false)
              sample_world))
  <> store_programmes (state sample_world).
Proof.
  split; [reflexivity|]. split; [reflexivity|].
  split; [reflexivity | discriminate].
Qed.

(** C1 (amended): a run of [fillDbFromXMLTV] that stops before parsing
    (fresh data and no force, no content obtained, or a null cache path)
    calls none of [clearChannels], [addChannels], [clearProgrammes],
    [addProgrammes], writes no file and leaves the state of the stores as it
    was; when it parses, an empty channel list leaves the channel store
    untouched and an empty programme list leaves the programme store
    untouched; a run of [fillDbChannelsFromPlaylist] that obtains no content
    leaves the stores untouched.  A run of [fillDbProgrammes] on stale or
    forced data calls [clearProgrammes] before it fetches, so when no content
    is obtained or the cache path is null the programme store is empty
    afterwards and the channel store is as before; only a run on fresh,
    unforced data leaves the programme store with its prior content. *)
Theorem refresh_failure_effects (rt : Runtime) (co : Collaborators)
  (force : bool) (w : World) :
  (xmltv_stops_before_parsing rt co force (state w) = true ->
   state (exec (fillDbFromXMLTV rt co force) w) = state w /\
   exists t, trace (exec (fillDbFromXMLTV rt co force) w) = trace w ++ t /\
             forallb (fun e => negb (is_write e)) t = true) /\
  (forall d, xmltv_parsed rt co force (state w) = Some d ->
   exists t, trace (exec (fillDbFromXMLTV rt co force) w) = trace w ++ t /\
     (channels d = [] ->
      store_channels (state (exec (fillDbFromXMLTV rt co force) w))
        = store_channels (state w) /\
      forallb (fun e => negb (is_channel_write e)) t = true) /\
     (programmes d = [] ->
      store_programmes (state (exec (fillDbFromXMLTV rt co force) w))
        = store_programmes (state w) /\
      forallb (fun e => negb (is_programme_write e)) t = true)) /\
  (forall playlist,
     playlist_source rt = Some playlist ->
     obtained co force "playlist.m3u" playlist (state w) = None ->
     state (exec (fillDbChannelsFromPlaylist rt co force) w) = state w /\
     exists t,
       trace (exec (fillDbChannelsFromPlaylist rt co force) w) = trace w ++ t /\
       forallb (fun e => negb (is_store_write e)) t = true) /\
  (isProgrammeDataStale co (state w) || force = true ->
   obtained co force "xmltv.xml" (XMLTV (config rt))
     (set_programmes [] (state w)) = None
   \/ getCachedFilePath co "xmltv.xml" (set_programmes [] (state w)) = None ->
   store_programmes (state (exec (fillDbProgrammes rt co force) w)) = [] /\
   store_channels (state (exec (fillDbProgrammes rt co force) w))
     = store_channels (state w) /\
   exists t, trace (exec (fillDbProgrammes rt co force) w)
             = trace w ++ EvIsProgrammeDataStale :: EvClearProgrammes :: t) /\
  (isProgrammeDataStale co (state w) = false -> force = false ->
   state (exec (fillDbProgrammes rt co force) w) = state w).
Proof.
  split; [apply fillDbFromXMLTV_stops|].
  split.
  { intros d Hd.
    destruct (fillDbFromXMLTV_empty_result rt co force w d Hd)
      as [t [Ht [Hc [Hp _]]]].
    exists t. auto. }
  split; [intros playlist; apply fillDbChannelsFromPlaylist_no_content|].
  split.
  { intros Hgo Hfail.
    destruct (fillDbProgrammes_failure rt co force w Hgo Hfail) as [Hs Ht].
    rewrite Hs. auto. }
  intros Hfresh ->. apply fillDbProgrammes_fresh. exact Hfresh.
Qed.

Lemma refresh_failure_effects_witness :
  state (exec (fillDbFromXMLTV sample_runtime offline_collaborators false)
           sample_world) = state sample_world /\
  store_programmes
    (state (exec (fillDbProgrammes sample_runtime offline_collaborators false)
              sample_world)) = [] /\
  state (exec (fillDbProgrammes sample_runtime cached_collaborators false)
           sample_world) = state sample_world.
Proof.
  split; [|split].
  - destruct (refresh_failure_effects sample_runtime offline_collaborators
                false sample_world) as [Hstop _].
    destruct (Hstop eq_refl) as [Hs _]. exact Hs.
  - destruct (refresh_failure_effects sample_runtime offline_collaborators
                false sample_world) as [_ [_ [_ [Hfail _]]]].
    destruct (Hfail eq_refl (or_introl eq_refl)) as [Hs _]. exact Hs.
  - destruct (refresh_failure_effects sample_runtime cached_collaborators
                false sample_world) as [_ [_ [_ [_ Hfresh]]]].
    exact (Hfresh eq_refl eq_refl).
Defined.

(* ===================================================================== *)
(** ** Reconciliation: what the merged set holds *)
(* ===================================================================== *)

(** C2, as stated, fails: the store holds a record without [tvg_id] and a
    record with one; after the playlist fill the merged set has replaced
    the store content and the record without [tvg_id] is gone. *)
Lemma existing_channel_without_id_dropped :
  In sample_existing_no_id (store_channels (state sample_world)) /\
  tvg_id sample_existing_no_id = "" /\
  store_channels
    (state (exec (fillDbChannelsFromPlaylist sample_runtime
                    cached_collaborators false) sample_world))
  = [sample_existing_abc] /\
  ~ In sample_existing_no_id
      (store_channels
         (state (exec (fillDbChannelsFromPlaylist sample_runtime
                         cached_collaborators false) sample_world))).
Proof.
  split; [left; reflexivity|]. split; [reflexivity|].
  split; [vm_compute; reflexivity|].
  replace (store_channels
             (state (exec (fillDbChannelsFromPlaylist sample_runtime
                             cached_collaborators false) sample_world)))
    with [sample_existing_abc] by (vm_compute; reflexivity).
  intros [H|[]]. discriminate H.
Qed.

Lemma reconcile_origin (existing pl : list ChannelEntry) :
  let st := reconcile existing pl in
  (forall r, In r (map_values (channelMap st)) ->
     (exists ex, existing !! r = Some ex /\ tvg_id ex <> "") \/
     (length existing <= r < length existing + length pl)) /\
  (forall j ex, existing !! j = Some ex -> tvg_id ex = "" ->
     ~ In j (map_values (channelMap st))) /\
  (forall c, In c (mergedChannels st) ->
     tvg_id c <> "" \/
     exists j q, pl !! j = Some q /\ same_identity c q).
Proof.
  intros st. destruct (reconcile_inv existing pl) as [Hlen _ Hid Hmap _ _].
  fold st in Hlen, Hid, Hmap.
  assert (Hrefs : forall r, In r (map_values (channelMap st)) ->
     (exists ex, existing !! r = Some ex /\ tvg_id ex <> "") \/
     (length existing <= r < length existing + length pl)).
  { intros r Hin. apply map_values_In in Hin. destruct Hin as [k Hin].
    destruct (Hmap k r Hin) as [Hlt Hex].
    destruct (Nat.lt_ge_cases r (length existing)) as [Hr|Hr].
    - left. destruct (Hex Hr) as [ex [He [Hk Hne]]].
      exists ex. split; [exact He | congruence].
    - right. lia. }
  split; [exact Hrefs|]. split.
  - intros j ex Hj Hempty Hin.
    destruct (Hrefs j Hin) as [[ex' [He Hne]] | Hrange].
    + congruence.
    + apply lookup_lt_Some in Hj. lia.
  - intros c Hc. unfold mergedChannels in Hc.
    apply list_elem_of_In, list_elem_of_omap in Hc.
    destruct Hc as [r [Hr Hheap]]. apply list_elem_of_In in Hr.
    destruct (Hrefs r Hr) as [[ex [He Hne]] | Hrange].
    + left. destruct (Hid r ex) as [c' [Hc' Hsame]].
      * rewrite lookup_app_l by (eapply lookup_lt_Some; exact He). exact He.
      * assert (c' = c) by congruence. subst c'.
        destruct Hsame as [_ [Htid _]]. congruence.
    + right. destruct (lookup_lt_is_Some_2 pl (r - length existing))
        as [q Hq]; [lia|].
      destruct (Hid r q) as [c' [Hc' Hsame]].
      * rewrite lookup_app_r by lia. exact Hq.
      * assert (c' = c) by congruence. subst c'.
        exists (r - length existing), q. auto.
Qed.

(** C2 (amended): in every run of the playlist fill that obtains content,
    the merged set replaces the content of the channel store when it is not
    empty; the objects of the merged set are the existing records that have
    a non-empty [tvg_id] (as updated by the playlist) and playlist-derived
    records, nothing else.  An existing record that lacks [tvg_id] is not
    indexed and its object is never part of the merged set, so it is
    dropped from the store whenever the merged set is written. *)
Theorem merged_set_origin (rt : Runtime) (co : Collaborators) (force : bool)
  (w : World) (playlist content : string) :
  playlist_source rt = Some playlist ->
  obtained co force "playlist.m3u" playlist (state w) = Some content ->
  let existing := store_channels (state w) in
  let pl := parsePlaylist rt content in
  let st := reconcile existing pl in
  store_channels (state (exec (fillDbChannelsFromPlaylist rt co force) w))
    = (if nonempty (mergedChannels st) then mergedChannels st else existing) /\
  (forall r, In r (map_values (channelMap st)) ->
     (exists ex, existing !! r = Some ex /\ tvg_id ex <> "") \/
     (length existing <= r < length existing + length pl)) /\
  (forall j ex, existing !! j = Some ex -> tvg_id ex = "" ->
     ~ In j (map_values (channelMap st))) /\
  (forall c, In c (mergedChannels st) ->
     tvg_id c <> "" \/
     exists j q, pl !! j = Some q /\ same_identity c q).
Proof.
  intros Hsrc Hsome existing pl st.
  split.
  - exact (fillDbChannelsFromPlaylist_store rt co force w playlist content
             Hsrc Hsome).
  - exact (reconcile_origin existing pl).
Qed.

Lemma merged_set_origin_witness :
  store_channels
    (state (exec (fillDbChannelsFromPlaylist sample_runtime
                    cached_collaborators false) sample_world))
  = [sample_existing_abc] /\
  ~ In 0 (map_values
            (channelMap
               (reconcile (store_channels (state sample_world))
                  (parsePlaylist sample_runtime "#EXTM3U")))).
Proof.
  destruct (merged_set_origin sample_runtime cached_collaborators false
              sample_world "http://epg.example/playlist.m3u" "#EXTM3U"
              eq_refl eq_refl) as [Hstore [_ [Hdrop _]]].
  split.
  - rewrite Hstore. vm_compute. reflexivity.
  - exact (Hdrop 0 sample_existing_no_id eq_refl eq_refl).
Defined.

(* ===================================================================== *)
(** ** The orchestrator *)
(* ===================================================================== *)







(* ===================================================================== *)
(** ** Decimal texts and the numbers read from them *)
(* ===================================================================== *)

Lemma digits_value_of_uint_acc (d : Decimal.uint) (acc : positive) :
  JsNum.digits_value (Z.pos acc) (NilEmpty.string_of_uint d)
  = Z.pos (Pos.of_uint_acc d acc).
Proof.
  revert acc. induction d as [|d IH|d IH|d IH|d IH|d IH|d IH|d IH|d IH|d IH|d IH];
    intros acc;
    cbn [NilEmpty.string_of_uint JsNum.digits_value Pos.of_uint_acc];
    [reflexivity|..];
    rewrite <- IH; f_equal; unfold JsString.code; cbn [N_of_ascii N_of_digits];
    cbn; lia.
Qed.

Lemma digits_value_of_uint (d : Decimal.uint) :
  JsNum.digits_value 0 (NilEmpty.string_of_uint d) = Z.of_N (Pos.of_uint d).
Proof.
  induction d as [|d IH|d IH|d IH|d IH|d IH|d IH|d IH|d IH|d IH|d IH];
    cbn [NilEmpty.string_of_uint JsNum.digits_value Pos.of_uint];
    [reflexivity | exact IH |..];
    exact (digits_value_of_uint_acc d _).
Qed.

Lemma all_digits_of_uint (d : Decimal.uint) :
  JsString.all_digits (NilEmpty.string_of_uint d) = true.
Proof.
  induction d; cbn [NilEmpty.string_of_uint JsString.all_digits];
    [reflexivity|..]; rewrite IHd; reflexivity.
Qed.

Lemma of_Z_nonneg (z : Z) :
  (0 <= z)%Z ->
  JsString.is_numeric (JsString.of_Z z) = true /\
  JsNum.digits_value 0 (JsString.of_Z z) = z.
Proof.
  intros Hz. unfold JsString.of_Z.
  destruct z as [|p|p]; [split; reflexivity | | lia].
  cbn [Z.to_int NilEmpty.string_of_int]. split.
  - unfold JsString.is_numeric. rewrite all_digits_of_uint, andb_true_r.
    pose proof (Unsigned.to_uint_nonnil p) as Hnil.
    destruct (Pos.to_uint p); [congruence|..]; reflexivity.
  - rewrite digits_value_of_uint, DecimalPos.Unsigned.of_to. reflexivity.
Qed.

Lemma of_Z_inj (a b : Z) : JsString.of_Z a = JsString.of_Z b -> a = b.
Proof.
  unfold JsString.of_Z. intros H.
  assert (Hint : Some (Z.to_int a) = Some (Z.to_int b)).
  { rewrite <- !NilEmpty.isi. rewrite H. reflexivity. }
  injection Hint as Hint.
  rewrite <- (DecimalZ.of_to a), <- (DecimalZ.of_to b), Hint. reflexivity.
Qed.

Lemma round_to_double_exact (z : Z) :
  (Z.abs z < 2 ^ 53)%Z -> JsNum.round_to_double z = Num z.
Proof.
  intros H. unfold JsNum.round_to_double.
  destruct (Z.ltb_spec (Z.abs z) (2 ^ 53)); [reflexivity | lia].
Qed.

(** Reading back the decimal text of a natural number below 2^53 gives the
    number. *)
Lemma parseInt_of_Z (z : Z) :
  (0 <= z < 2 ^ 53)%Z -> JsNum.parseInt (JsString.of_Z z) = Num z.
Proof.
  intros Hz. destruct (of_Z_nonneg z) as [Hnum Hval]; [lia|].
  rewrite (parseInt_numeric _ Hnum), Hval.
  apply round_to_double_exact. lia.
Qed.

Lemma digits_value_bounds (s : string) (acc : Z) :
  JsString.all_digits s = true -> (0 <= acc)%Z ->
  (0 <= JsNum.digits_value acc s
   < (acc + 1) * 10 ^ Z.of_nat (String.length s))%Z.
Proof.
  revert acc. induction s as [|c r IH]; intros acc Hd Hacc.
  - cbn. lia.
  - cbn [JsString.all_digits] in Hd. apply andb_true_iff in Hd.
    destruct Hd as [Hc Hr].
    cbn [JsNum.digits_value String.length].
    unfold JsString.is_digit in Hc. cbv zeta in Hc.
    apply andb_true_iff in Hc. destruct Hc as [H1 H2].
    apply N.leb_le in H1. apply N.leb_le in H2.
    specialize (IH (10 * acc + (Z.of_N (JsString.code c) - 48))%Z Hr).
    rewrite Nat2Z.inj_succ, Z.pow_succ_r by lia.
    assert (0 <= 10 ^ Z.of_nat (String.length r))%Z by (apply Z.pow_nonneg; lia).
    nia.
Qed.

(** A string of at most fifteen digits is read exactly. *)
Lemma parseInt_short (s : string) :
  JsString.is_numeric s = true -> String.length s <= 15 ->
  JsNum.parseInt s = Num (JsNum.digits_value 0 s) /\
  (0 <= JsNum.digits_value 0 s < 10 ^ 15)%Z.
Proof.
  intros Hnum Hlen. pose proof Hnum as Hnum'.
  unfold JsString.is_numeric in Hnum'. apply andb_true_iff in Hnum'.
  destruct Hnum' as [_ Hd].
  destruct (digits_value_bounds s 0 Hd) as [Hlo Hhi]; [lia|].
  assert (Hpow : (10 ^ Z.of_nat (String.length s) <= 10 ^ 15)%Z).
  { apply Z.pow_le_mono_r; lia. }
  split; [|lia].
  rewrite (parseInt_numeric _ Hnum). apply round_to_double_exact. lia.
Qed.

Lemma span_digits_app (d r : string) :
  JsString.all_digits d = true -> no_leading_digit r = true ->
  JsString.span_digits (d +:+ r) = (d, r).
Proof.
  intros Hd Hr. induction d as [|c d IH].
  - destruct r as [|c r]; [reflexivity|].
    cbn [no_leading_digit] in Hr. simpl.
    destruct (JsString.is_digit c); [discriminate | reflexivity].
  - cbn [JsString.all_digits] in Hd. apply andb_true_iff in Hd.
    destruct Hd as [Hc Hd'].
    simpl. rewrite Hc, (IH Hd'). reflexivity.
Qed.

Lemma is_digit_not_dot (c : ascii) :
  JsString.is_digit c = true -> Ascii.eqb c "." = false.
Proof.
  intros Hc. destruct (Ascii.eqb_spec c "."%char) as [->|]; [|reflexivity].
  discriminate Hc.
Qed.

Lemma split_dot_digits (d r : string) :
  JsString.all_digits d = true ->
  JsString.split "." (d +:+ String "." r) = d :: JsString.split "." r.
Proof.
  intros Hd. induction d as [|c d IH].
  - reflexivity.
  - cbn [JsString.all_digits] in Hd. apply andb_true_iff in Hd.
    destruct Hd as [Hc Hd'].
    simpl. rewrite (is_digit_not_dot _ Hc), (IH Hd'). reflexivity.
Qed.

Lemma split_nonempty (sep : ascii) (s : string) : JsString.split sep s <> [].
Proof.
  destruct s as [|c r]; cbn [JsString.split]; [discriminate|].
  destruct (Ascii.eqb c sep); [discriminate|].
  destruct (JsString.split sep r); discriminate.
Qed.

Lemma is_numeric_parts (s : string) :
  JsString.is_numeric s = true ->
  JsString.truthy s = true /\ JsString.all_digits s = true.
Proof. unfold JsString.is_numeric. intros H. apply andb_true_iff in H. exact H. Qed.

Lemma succ_exact (z : Z) :
  (0 <= z < 10 ^ 15)%Z -> JsNum.succ (Num z) = Num (z + 1).
Proof.
  intros Hz. cbn [JsNum.succ]. apply round_to_double_exact.
  assert (10 ^ 15 < 2 ^ 53)%Z by reflexivity. lia.
Qed.

(* ===================================================================== *)
(** ** Episode numbers: the two encodings in general *)
(* ===================================================================== *)

(** X1: An [xmltv_ns] value [s.e.rest] whose first two parts are strings of at
    most fifteen digits decodes, when no season is set yet, to the season
    [s + 1] and the episode [e + 1]; the text [episode_num] stays empty. *)
Theorem xmltv_ns_decoding (s e rest : string) :
  JsString.is_numeric s = true -> String.length s <= 15 ->
  JsString.is_numeric e = true -> String.length e <= 15 ->
  parseEpisodeNumber
    (Some [episode_num_node "xmltv_ns"
             (s +:+ String "." (e +:+ String "." rest))])
  = {| episodeNum := "";
       ep_season := Some (Num (JsNum.digits_value 0 s + 1));
       ep_episode := Some (Num (JsNum.digits_value 0 e + 1)) |}.
Proof.
  intros Hs Hls He Hle.
  destruct (is_numeric_parts _ Hs) as [Hts Hds].
  destruct (is_numeric_parts _ He) as [Hte Hde].
  destruct (parseInt_short s Hs Hls) as [Hps Hbs].
  destruct (parseInt_short e He Hle) as [Hpe Hbe].
  unfold parseEpisodeNumber. cbn [fold_left].
  unfold episodeNum_step, episode_num_node.
  cbn [Xml.attr Xml.dollar Xml.assoc extractTextContent ep_season episodeNum
       ep_episode].
  cbn [String.eqb Ascii.eqb Bool.eqb JsNum.falsy andb].
  rewrite (split_dot_digits s _ Hds), (split_dot_digits e _ Hde).
  rewrite Hts, Hte. cbn [andb]. rewrite Hps, Hpe. cbn [JsNum.isNaN negb].
  rewrite (succ_exact _ Hbs), (succ_exact _ Hbe). reflexivity.
Qed.

Lemma xmltv_ns_decoding_witness :
  parseEpisodeNumber
    (Some [episode_num_node "xmltv_ns" "004.011.0/1"])
  = {| episodeNum := "";
       ep_season := Some (Num 5); ep_episode := Some (Num 12) |}.
Proof.
  exact (xmltv_ns_decoding "004" "011" "0/1" eq_refl ltac:(cbn; lia)
           eq_refl ltac:(cbn; lia)).
Defined.

Lemma onscreen_at_digits (c1 c2 : ascii) (d1 d2 tail : string) :
  Ascii.eqb c1 "S" || Ascii.eqb c1 "s" = true ->
  Ascii.eqb c2 "E" || Ascii.eqb c2 "e" = true ->
  JsString.is_numeric d1 = true -> JsString.is_numeric d2 = true ->
  no_leading_digit tail = true ->
  onscreenMatch (String c1 (d1 +:+ String c2 (d2 +:+ tail))) = Some (d1, d2).
Proof.
  intros H1 H2 Hd1 Hd2 Htail.
  destruct (is_numeric_parts _ Hd1) as [Ht1 Ha1].
  destruct (is_numeric_parts _ Hd2) as [Ht2 Ha2].
  assert (Hc2 : no_leading_digit (String c2 (d2 +:+ tail)) = true).
  { cbn [no_leading_digit].
    destruct (Ascii.eqb_spec c2 "E"%char) as [->|]; [reflexivity|].
    destruct (Ascii.eqb_spec c2 "e"%char) as [->|]; [reflexivity|].
    discriminate H2. }
  cbn [onscreenMatch]. unfold onscreen_at. rewrite H1.
  rewrite (span_digits_app d1 _ Ha1 Hc2), Ht1, H2.
  rewrite (span_digits_app d2 _ Ha2 Htail), Ht2. reflexivity.
Qed.

(** X2: An on-screen value made of [S] or [s], a string of at most fifteen
    digits, [E] or [e] and another such string, followed by anything that
    does not begin with a digit, decodes to these two numbers, whatever was
    decoded before; the value is kept verbatim as [episode_num]. *)
Theorem onscreen_decoding (st : EpisodeInfo) (c1 c2 : ascii)
  (d1 d2 tail : string) :
  Ascii.eqb c1 "S" || Ascii.eqb c1 "s" = true ->
  Ascii.eqb c2 "E" || Ascii.eqb c2 "e" = true ->
  JsString.is_numeric d1 = true -> String.length d1 <= 15 ->
  JsString.is_numeric d2 = true -> String.length d2 <= 15 ->
  no_leading_digit tail = true ->
  let value := String c1 (d1 +:+ String c2 (d2 +:+ tail)) in
  episodeNum_step st (episode_num_node "onscreen" value)
  = {| episodeNum := value;
       ep_season := Some (Num (JsNum.digits_value 0 d1));
       ep_episode := Some (Num (JsNum.digits_value 0 d2)) |}.
Proof.
  intros H1 H2 Hd1 Hl1 Hd2 Hl2 Htail value.
  rewrite (episodeNum_step_onscreen st value d1 d2
             (onscreen_at_digits c1 c2 d1 d2 tail H1 H2 Hd1 Hd2 Htail)).
  rewrite (proj1 (parseInt_short d1 Hd1 Hl1)),
          (proj1 (parseInt_short d2 Hd2 Hl2)).
  reflexivity.
Qed.

Lemma onscreen_decoding_witness :
  episodeNum_step
    {| episodeNum := ""; ep_season := Some (Num 9); ep_episode := None |}
    (episode_num_node "onscreen" "s02e007 (repeat)")
  = {| episodeNum := "s02e007 (repeat)";
       ep_season := Some (Num 2); ep_episode := Some (Num 7) |}.
Proof.
  exact (onscreen_decoding _ "s" "e" "02" "007" " (repeat)"
           eq_refl eq_refl eq_refl ltac:(cbn; lia) eq_refl ltac:(cbn; lia)
           eq_refl).
Defined.

Lemma episodeNum_step_text (st : EpisodeInfo) (x : XmlNode) :
  episodeNum (episodeNum_step st x)
  = (if has_system "onscreen" x then extractTextContent (Some x)
     else episodeNum st).
Proof.
  unfold episodeNum_step, has_system.
  destruct (Xml.attr x "system") as [sys|]; [|reflexivity].
  destruct (String.eqb sys "onscreen").
  - destruct (onscreenMatch (extractTextContent (Some x))) as [[m1 m2]|];
      reflexivity.
  - destruct (String.eqb sys "xmltv_ns" && JsNum.falsy (ep_season st));
      [|reflexivity].
    destruct (JsString.split "." (extractTextContent (Some x))) as [|p0 [|p1 l]];
      try reflexivity.
    destruct (JsString.truthy p0 && JsString.truthy p1); reflexivity.
Qed.

Lemma episodeNum_fold_text (elems : list XmlNode) (st : EpisodeInfo) :
  episodeNum (fold_left episodeNum_step elems st)
  = last_onscreen_text elems (episodeNum st).
Proof.
  revert st. induction elems as [|x rest IH]; intros st; [reflexivity|].
  cbn [fold_left last_onscreen_text]. rewrite IH, episodeNum_step_text.
  reflexivity.
Qed.

(** X3: The text [episode_num] is the text of the last element that declares
    the on-screen system, whether or not that text has the [S..E..] shape;
    it is empty when no element declares that system.  Elements of the
    [xmltv_ns] system never contribute to it. *)
Theorem episode_num_is_last_onscreen (elems : list XmlNode) :
  episodeNum (parseEpisodeNumber (Some elems)) = last_onscreen_text elems "".
Proof. unfold parseEpisodeNumber. apply episodeNum_fold_text. Qed.

Lemma episodeNum_step_unknown (st : EpisodeInfo) (x : XmlNode) :
  known_system x = false -> episodeNum_step st x = st.
Proof.
  unfold known_system, has_system, episodeNum_step.
  destruct (Xml.attr x "system") as [sys|]; [|reflexivity].
  intros H. apply orb_false_iff in H. destruct H as [H1 H2].
  rewrite H1, H2. reflexivity.
Qed.

(** X4: Elements that declare no system, or a system other than [onscreen]
    and [xmltv_ns], have no effect: removing them from the list leaves the
    result as it is. *)
Theorem unknown_systems_ignored (elems : list XmlNode) :
  parseEpisodeNumber (Some elems)
  = parseEpisodeNumber (Some (List.filter known_system elems)).
Proof.
  unfold parseEpisodeNumber.
  generalize {| episodeNum := ""; ep_season := None; ep_episode := None |}.
  induction elems as [|x rest IH]; intros st; [reflexivity|].
  cbn [fold_left List.filter].
  destruct (known_system x) eqn:Hk.
  - cbn [fold_left]. apply IH.
  - rewrite (episodeNum_step_unknown st x Hk). apply IH.
Qed.

(* ===================================================================== *)
(** ** Programme elements: when they parse and what they hold *)
(* ===================================================================== *)

Lemma returned_programme_valid (rt : Runtime) (p : XmlNode)
  (e : ProgrammeEntry) :
  parseProgrammeEntry rt p = Returned e ->
  exists attrs s t a b,
    Xml.dollar p = Some attrs /\
    Xml.assoc "start" attrs = Some s /\ Xml.assoc "stop" attrs = Some t /\
    JsString.truthy s = true /\ JsString.truthy t = true /\
    parseDate rt s = Some a /\ parseDate rt t = Some b /\
    e = {| start := toISOString rt a;
           stop := toISOString rt b;
           start_timestamp := (a / 1000)%Z;
           stop_timestamp := (b / 1000)%Z;
           channel := Xml.assoc "channel" attrs;
           title := extractTextContent (Xml.first_child p "title");
           description := extractTextContent (Xml.first_child p "desc");
           category := extractTextContent (Xml.first_child p "category");
           subtitle := extractTextContent (Xml.first_child p "sub-title");
           episode_num :=
             episodeNum (parseEpisodeNumber (Xml.child p "episode-num"));
           season :=
             ep_season (parseEpisodeNumber (Xml.child p "episode-num"));
           episode :=
             ep_episode (parseEpisodeNumber (Xml.child p "episode-num"));
           icon := Xml.first_child_src p "icon";
           image := extractTextContent (Xml.first_child p "image");
           date := extractTextContent (Xml.first_child p "date");
           previously_shown :=
             match Xml.child p "previously-shown" with
             | Some _ => true
             | None => false
             end;
           p_created_at := now rt |}.
Proof.
  unfold parseProgrammeEntry.
  destruct (Xml.dollar p) as [attrs|]; [|discriminate].
  destruct (Xml.assoc "start" attrs) as [s|] eqn:Hs; [|discriminate].
  destruct (Xml.assoc "stop" attrs) as [t|] eqn:Ht; [|discriminate].
  destruct (JsString.truthy s) eqn:Hts; [|discriminate].
  destruct (JsString.truthy t) eqn:Htt; [|discriminate].
  cbn [andb].
  destruct (parseDate rt s) as [a|] eqn:Ha; [|discriminate].
  destruct (parseDate rt t) as [b|] eqn:Hb; [|discriminate].
  intros [= <-]. exists attrs, s, t, a, b. repeat split; assumption.
Qed.

Lemma returned_is_valid (rt : Runtime) (p : XmlNode) (e : ProgrammeEntry) :
  parseProgrammeEntry rt p = Returned e -> valid_programme rt p = true.
Proof.
  intros He.
  destruct (returned_programme_valid rt p e He)
    as (attrs & s & t & a & b & Hd & Hs & Ht & Hts & Htt & Ha & Hb & _).
  unfold valid_programme, lacks_start_or_stop, dates_valid, Xml.attr.
  rewrite Hd, Hs, Ht. cbn [truthy_opt]. rewrite Hts, Htt, Ha, Hb. reflexivity.
Qed.

(** X5: [parseProgrammeEntry] returns a record exactly for the elements that
    carry a non-empty [start] and a non-empty [stop] whose dates are
    readable, and throws for every other element.  Nothing else is
    checked: identical or reversed times and a missing [channel] do not
    make an element fail. *)
Theorem parseProgrammeEntry_returns_iff (rt : Runtime) (p : XmlNode) :
  (exists e, parseProgrammeEntry rt p = Returned e)
  <-> valid_programme rt p = true.
Proof.
  split; [|apply valid_programme_returns].
  intros [e He]. exact (returned_is_valid rt p e He).
Qed.

(** X6: The loop over the programme elements returns as many records as there
    are valid elements, hence never more than there are elements. *)
Theorem programme_loop_count (rt : Runtime) (elems : list XmlNode) :
  length (programme_loop rt elems)
    = length (List.filter (valid_programme rt) elems) /\
  length (programme_loop rt elems) <= length elems.
Proof.
  induction elems as [|p elems [IH1 IH2]]; [split; reflexivity|].
  rewrite programme_loop_cons. cbn [List.filter length].
  destruct (valid_programme rt p) eqn:Hv.
  - destruct (valid_programme_returns rt p Hv) as [e ->].
    cbn [length]. split; lia.
  - destruct (parseProgrammeEntry rt p) as [e|msg] eqn:He.
    + assert (valid_programme rt p = true)
        by (apply (returned_is_valid rt p e); exact He).
      congruence.
    + split; lia.
Qed.

(** X7: The programmes-only parser and the full parser return the same
    programmes for every file system and path, also when the read or the
    XML parse fails. *)
Theorem parseXMLTV_agrees_with_full (rt : Runtime) (files : gmap string string)
  (path : string) :
  parseXMLTV rt files path = programmes (parseXMLTVFull rt files path).
Proof.
  unfold parseXMLTV, parseXMLTVFull.
  destruct (files !! path) as [content|]; [|reflexivity].
  destruct (parseString rt content) as [parsed|]; [|reflexivity].
  destruct (tv_of parsed); reflexivity.
Qed.

(** X9: The two epoch-second stamps of a parsed programme are the time values
    of its dates cut down to whole seconds (rounded towards minus
    infinity), so a [stop] that is not before the [start] gives a
    [stop_timestamp] that is not before the [start_timestamp]. *)
Theorem programme_timestamps (rt : Runtime) (p : XmlNode) (e : ProgrammeEntry) :
  parseProgrammeEntry rt p = Returned e ->
  exists s t a b,
    Xml.attr p "start" = Some s /\ Xml.attr p "stop" = Some t /\
    parseDate rt s = Some a /\ parseDate rt t = Some b /\
    start e = toISOString rt a /\ stop e = toISOString rt b /\
    (1000 * start_timestamp e <= a < 1000 * start_timestamp e + 1000)%Z /\
    (1000 * stop_timestamp e <= b < 1000 * stop_timestamp e + 1000)%Z /\
    ((a <= b)%Z -> (start_timestamp e <= stop_timestamp e)%Z).
Proof.
  intros He.
  destruct (returned_programme_valid rt p e He)
    as (attrs & s & t & a & b & Hd & Hs & Ht & _ & _ & Ha & Hb & ->).
  exists s, t, a, b. unfold Xml.attr. rewrite Hd.
  cbn [start stop start_timestamp stop_timestamp].
  pose proof (Z.div_mod a 1000 ltac:(lia)).
  pose proof (Z.mod_pos_bound a 1000 ltac:(lia)).
  pose proof (Z.div_mod b 1000 ltac:(lia)).
  pose proof (Z.mod_pos_bound b 1000 ltac:(lia)).
  repeat split; try assumption; try lia;
    intros Hab; apply Z.div_le_mono; lia.
Qed.

Lemma programme_timestamps_witness :
  exists e,
    parseProgrammeEntry sample_runtime sample_programme_bare = Returned e /\
    start_timestamp e = 1700000000%Z /\ stop_timestamp e = 1700000000%Z.
Proof.
  destruct (parseProgrammeEntry sample_runtime sample_programme_bare)
    as [e|msg] eqn:He; [|discriminate He].
  exists e. split; [reflexivity|].
  destruct (programme_timestamps sample_runtime sample_programme_bare e He)
    as (s & t & a & b & Hs & Ht & Ha & Hb & _ & _ & Hlo & Hhi & _).
  injection Hs as <-. injection Ht as <-.
  injection Ha as <-. injection Hb as <-. split; lia.
Defined.

(** X10: Every optional part of a programme element has a default: a text
    field whose child element is absent is the empty string, without
    [episode-num] elements the season and the episode are undefined and
    [episode_num] is empty, and [channel] is the attribute as found,
    undefined when absent. *)
Theorem programme_defaults (rt : Runtime) (p : XmlNode) (e : ProgrammeEntry) :
  parseProgrammeEntry rt p = Returned e ->
  (Xml.child p "title" = None -> title e = "") /\
  (Xml.child p "desc" = None -> description e = "") /\
  (Xml.child p "category" = None -> category e = "") /\
  (Xml.child p "sub-title" = None -> subtitle e = "") /\
  (Xml.child p "icon" = None -> icon e = "") /\
  (Xml.child p "image" = None -> image e = "") /\
  (Xml.child p "date" = None -> date e = "") /\
  (Xml.child p "episode-num" = None ->
   episode_num e = "" /\ season e = None /\ episode e = None) /\
  channel e = Xml.attr p "channel".
Proof.
  intros He.
  destruct (returned_programme_valid rt p e He)
    as (attrs & s & t & a & b & Hd & _ & _ & _ & _ & _ & _ & ->).
  cbn [title description category subtitle icon image date episode_num
       season episode channel].
  unfold Xml.first_child_src, Xml.first_child, Xml.attr. rewrite Hd.
  repeat split; try reflexivity; try (intros ->; reflexivity).
  all: match goal with
       | H : Xml.child _ _ = None |- _ => rewrite H; reflexivity
       end.
Qed.

Lemma programme_defaults_witness :
  exists e,
    parseProgrammeEntry sample_runtime sample_programme_bare = Returned e /\
    title e = "" /\ season e = None /\ channel e = None.
Proof.
  destruct (parseProgrammeEntry sample_runtime sample_programme_bare)
    as [e|msg] eqn:He; [|discriminate He].
  exists e. split; [reflexivity|].
  destruct (programme_defaults sample_runtime sample_programme_bare e He)
    as (Ht & _ & _ & _ & _ & _ & _ & Hep & Hch).
  split; [exact (Ht eq_refl)|].
  split; [exact (proj1 (proj2 (Hep eq_refl))) | exact Hch].
Defined.

(* ===================================================================== *)
(** ** Channel elements: number, stream address, merge with a playlist *)
(* ===================================================================== *)

Lemma parseChannelEntry_eq (rt : Runtime) (c : XmlNode) :
  parseChannelEntry rt c =
  {| xui_id := if JsString.truthy (channel_number c)
               then JsNum.parseInt (channel_number c) else Num 0;
     tvg_id := channel_id c;
     tvg_name := first_such JsString.truthy (display_texts c);
     tvg_logo := Xml.first_child_src c "icon";
     group_title := "";
     url := match STREAM_BASE_URL (config rt) with
            | Some base =>
                if JsString.truthy base && JsString.truthy (channel_number c)
                then JsString.replace "{channel}" (channel_number c) base
                else ""
            | None => ""
            end;
     created_at := now rt;
     country := "" |}.
Proof.
  unfold parseChannelEntry, channel_number, display_texts, channel_id.
  rewrite displayName_fold. reflexivity.
Qed.

Lemma round_to_double_nonneg (z : Z) :
  (0 <= z)%Z ->
  (exists n, (0 <= n)%Z /\ JsNum.round_to_double z = Num n)
  \/ JsNum.round_to_double z = PosInf.
Proof.
  intros Hz. unfold JsNum.round_to_double.
  destruct (Z.abs z <? 2 ^ 53)%Z; [left; eauto|].
  cbv zeta.
  set (e := (Z.log2 (Z.abs z) - 52)%Z).
  set (q := Z.shiftr (Z.abs z) e).
  assert (Hq : (0 <= q)%Z) by (apply Z.shiftr_nonneg; lia).
  match goal with
  | |- context [if ?b then (q + 1)%Z else q] =>
      set (q' := if b then (q + 1)%Z else q);
      assert (Hq' : (0 <= q')%Z) by (unfold q'; destruct b; lia)
  end.
  assert (Hv : (0 <= Z.shiftl q' e)%Z) by (apply Z.shiftl_nonneg; exact Hq').
  destruct (2 ^ 1024 <=? Z.shiftl q' e)%Z.
  - right. destruct (Z.ltb_spec z 0); [lia | reflexivity].
  - left. exists (Z.sgn z * Z.shiftl q' e)%Z. split; [|reflexivity].
    apply Z.mul_nonneg_nonneg; [|exact Hv].
    apply Z.sgn_nonneg. exact Hz.
Qed.

Lemma channel_number_numeric (c : XmlNode) :
  channel_number c <> "" -> JsString.is_numeric (channel_number c) = true.
Proof.
  intros Hne. apply first_such_is_numeric. apply truthy_ne. exact Hne.
Qed.

(** X11: The [xui_id] of an XMLTV channel is never [NaN] and never negative;
    it is the exact decimal value of the channel number when that has at
    most fifteen digits, and 0 when the element has no numeric display
    name. *)
Theorem xui_id_range (rt : Runtime) (c : XmlNode) :
  ((exists n, (0 <= n)%Z /\ xui_id (parseChannelEntry rt c) = Num n)
   \/ xui_id (parseChannelEntry rt c) = PosInf) /\
  (String.length (channel_number c) <= 15 ->
   xui_id (parseChannelEntry rt c)
     = Num (JsNum.digits_value 0 (channel_number c))) /\
  (channel_number c = "" -> xui_id (parseChannelEntry rt c) = Num 0).
Proof.
  rewrite parseChannelEntry_eq. cbn [xui_id].
  destruct (JsString.truthy (channel_number c)) eqn:Ht.
  - assert (Hne : channel_number c <> "")
      by (intros Heq; rewrite Heq in Ht; discriminate).
    pose proof (channel_number_numeric c Hne) as Hnum.
    destruct (is_numeric_parts _ Hnum) as [_ Hd].
    split; [|split].
    + rewrite (parseInt_numeric _ Hnum). apply round_to_double_nonneg.
      apply (digits_value_bounds _ 0 Hd). lia.
    + intros Hlen. apply (parseInt_short _ Hnum Hlen).
    + intros Heq. contradiction.
  - apply truthy_false_empty in Ht. rewrite Ht.
    split; [left; exists 0%Z; split; [lia | reflexivity]|].
    split; reflexivity.
Qed.

Lemma xui_id_range_witness :
  xui_id (parseChannelEntry sample_runtime sample_channel_node) = Num 102 /\
  xui_id (parseChannelEntry sample_runtime sample_channel_empty_first) = Num 0.
Proof.
  split.
  - destruct (xui_id_range sample_runtime sample_channel_node)
      as [_ [Hshort _]].
    rewrite Hshort; [reflexivity | vm_compute; lia].
  - destruct (xui_id_range sample_runtime sample_channel_empty_first)
      as [_ [_ Hnone]].
    exact (Hnone eq_refl).
Defined.

Lemma replace_no_brace (rep s : string) :
  no_brace s = true -> JsString.replace "{channel}" rep s = s.
Proof.
  induction s as [|c r IH]; intros H; [reflexivity|].
  cbn [no_brace] in H. apply andb_true_iff in H. destruct H as [Hc Hr].
  cbn [JsString.replace]. 
  assert (Hp : String.prefix "{channel}" (String c r) = false).
  { cbn [String.prefix].
    destruct (ascii_dec "{"%char c) as [<-|Hne]; [discriminate Hc | reflexivity]. }
  rewrite Hp, (IH Hr). reflexivity.
Qed.

Lemma replace_at_placeholder (rep pre post : string) :
  no_brace pre = true ->
  JsString.replace "{channel}" rep (pre +:+ "{channel}" +:+ post)
  = pre +:+ rep +:+ post.
Proof.
  induction pre as [|c r IH]; intros H.
  - cbn. repeat (destruct (ascii_dec _ _) as [_|Hne]; [|congruence]).
    destruct post; reflexivity.
  - cbn [no_brace] in H. apply andb_true_iff in H. destruct H as [Hc Hr].
    change (String c r +:+ "{channel}" +:+ post)
      with (String c (r +:+ "{channel}" +:+ post)).
    cbn [JsString.replace].
    assert (Hp : String.prefix "{channel}"
                   (String c (r +:+ "{channel}" +:+ post)) = false).
    { cbn [String.prefix].
      destruct (ascii_dec "{"%char c) as [<-|Hne];
        [discriminate Hc | reflexivity]. }
    rewrite Hp, (IH Hr). reflexivity.
Qed.

(** X12: With a template that holds the placeholder after a part without
    braces, the stream address of a numbered channel is the template with
    the channel number in the placeholder's place; with a template that
    holds no brace at all every numbered channel gets the template itself;
    a channel without a numeric display name gets no address. *)
Theorem stream_url_substitution (rt : Runtime) (c : XmlNode) :
  (forall pre post,
     STREAM_BASE_URL (config rt) = Some (pre +:+ "{channel}" +:+ post) ->
     no_brace pre = true -> channel_number c <> "" ->
     url (parseChannelEntry rt c) = pre +:+ channel_number c +:+ post) /\
  (forall base,
     STREAM_BASE_URL (config rt) = Some base ->
     no_brace base = true -> channel_number c <> "" ->
     url (parseChannelEntry rt c) = base) /\
  (channel_number c = "" -> url (parseChannelEntry rt c) = "").
Proof.
  rewrite parseChannelEntry_eq. cbn [url]. split; [|split].
  - intros pre post Hcfg Hpre Hnum. rewrite Hcfg, (truthy_ne _ Hnum).
    rewrite replace_at_placeholder by exact Hpre.
    assert (Ht : JsString.truthy (pre +:+ "{channel}" +:+ post) = true)
      by (destruct pre; reflexivity).
    rewrite Ht. reflexivity.
  - intros base Hcfg Hbase Hnum. rewrite Hcfg, (truthy_ne _ Hnum).
    rewrite replace_no_brace by exact Hbase.
    destruct base; reflexivity.
  - intros ->. destruct (STREAM_BASE_URL (config rt)) as [base|]; [|reflexivity].
    rewrite andb_false_r. reflexivity.
Qed.

Lemma stream_url_substitution_witness :
  url (parseChannelEntry
         (sample_template_runtime "https://cdn.example/live/{channel}/index.m3u8")
         sample_channel_node)
    = "https://cdn.example/live/102/index.m3u8" /\
  url (parseChannelEntry
         (sample_template_runtime "https://cdn.example/live/fixed.m3u8")
         sample_channel_node)
    = "https://cdn.example/live/fixed.m3u8".
Proof.
  split.
  - destruct (stream_url_substitution
                (sample_template_runtime
                   "https://cdn.example/live/{channel}/index.m3u8")
                sample_channel_node) as [Hsub _].
    exact (Hsub "https://cdn.example/live/" "/index.m3u8" eq_refl eq_refl
             ltac:(discriminate)).
  - destruct (stream_url_substitution
                (sample_template_runtime "https://cdn.example/live/fixed.m3u8")
                sample_channel_node) as [_ [Hsame _]].
    exact (Hsame _ eq_refl eq_refl ltac:(discriminate)).
Defined.

(** X13: A channel record that comes from the XMLTV parser has an empty
    [group_title] and an empty [country], so when a playlist record is
    merged into it the merged record carries the [url], the [group_title]
    and the [country] of the playlist record in every case, and the
    identifier, name, logo and number of the XMLTV element. *)
Theorem merge_into_xmltv_channel (rt : Runtime) (c : XmlNode)
  (p : ChannelEntry) :
  let x := parseChannelEntry rt c in
  let m := update_existing x p in
  group_title x = "" /\ country x = "" /\
  url m = url p /\ group_title m = group_title p /\ country m = country p /\
  tvg_id m = channel_id c /\ tvg_name m = tvg_name x /\
  tvg_logo m = Xml.first_child_src c "icon" /\ xui_id m = xui_id x.
Proof.
  intros x m. unfold m, x. rewrite parseChannelEntry_eq.
  cbn [update_existing group_title country url tvg_id tvg_name tvg_logo xui_id].
  repeat split.
  - destruct (group_title p); reflexivity.
  - destruct (country p); reflexivity.
Qed.

(* ===================================================================== *)
(** ** Pairing of playlist lines: what every record satisfies *)
(* ===================================================================== *)

Lemma trimStart_shape (s : string) :
  JsString.trimStart s = ""
  \/ exists c r, JsString.trimStart s = String c r /\ JsString.is_space c = false.
Proof.
  induction s as [|c r IH]; [left; reflexivity|].
  cbn [JsString.trimStart]. destruct (JsString.is_space c) eqn:Hc.
  - exact IH.
  - right. eauto.
Qed.

Lemma trimEnd_idempotent (s : string) :
  JsString.trimEnd (JsString.trimEnd s) = JsString.trimEnd s.
Proof.
  induction s as [|c r IH]; [reflexivity|].
  cbn [JsString.trimEnd].
  destruct (JsString.is_space c && negb (JsString.truthy (JsString.trimEnd r)))
    eqn:Hcond; [reflexivity|].
  cbn [JsString.trimEnd]. rewrite IH, Hcond. reflexivity.
Qed.

Lemma trim_idempotent (s : string) :
  JsString.trim (JsString.trim s) = JsString.trim s.
Proof.
  unfold JsString.trim.
  destruct (trimStart_shape s) as [-> | (c & r & -> & Hc)]; [reflexivity|].
  cbn [JsString.trimEnd]. rewrite Hc. cbn [andb JsString.trimStart].
  rewrite Hc. cbn [JsString.trimEnd]. rewrite Hc, trimEnd_idempotent.
  reflexivity.
Qed.

Lemma following_url_shape (lines : list string) (u : string) :
  following_url lines = Some u ->
  JsString.truthy u = true /\ JsString.trim u = u /\
  exists l, In l lines /\ is_url_line l = true /\ u = JsString.trim l.
Proof.
  induction lines as [|l rest IH]; cbn [following_url]; [discriminate|].
  destruct (is_extinf l); [discriminate|].
  destruct (is_url_line l) eqn:Hu.
  - intros [= <-]. unfold is_url_line in Hu. apply andb_true_iff in Hu.
    destruct Hu as [Hc Ht]. split; [exact Ht|].
    split; [apply trim_idempotent|].
    exists l. split; [left; reflexivity|]. split; [|reflexivity].
    unfold is_url_line. rewrite Hc, Ht. reflexivity.
  - intros H. destruct (IH H) as [Ht [Hi [l' [Hin Hl']]]].
    split; [exact Ht|]. split; [exact Hi|]. exists l'. split; [right|]; auto.
Qed.

(** X14: Every record pushed by the pairing loop has a non-empty [url] without
    surrounding white space, taken from a non-comment line of the input,
    carries the time of the run as [created_at], and has every other field
    as [fromPlaylistLine] returned it for an [#EXTINF:] line of the
    input. *)
Theorem paired_record_shape (rt : Runtime) (lines : list string)
  (c : ChannelEntry) :
  In c (pairing_loop rt lines) ->
  JsString.truthy (url c) = true /\
  JsString.trim (url c) = url c /\
  created_at c = now rt /\
  (exists l, In l lines /\ is_url_line l = true /\ url c = JsString.trim l) /\
  (exists e, In e lines /\ is_extinf e = true /\
             c = with_url rt (fromPlaylistLine rt e) (url c)).
Proof.
  rewrite pairing_loop_spec.
  induction lines as [|l rest IH]; cbn [paired_records]; [intros []|].
  intros Hin. apply in_app_or in Hin. destruct Hin as [Hhere | Hlater].
  - destruct (is_extinf l) eqn:He; [|destruct Hhere].
    unfold entry_record in Hhere.
    destruct (following_url rest) as [u|] eqn:Hu; [|destruct Hhere].
    destruct Hhere as [<- | []].
    destruct (following_url_shape rest u Hu) as [Ht [Hi [l' [Hin' [Hl' Hu']]]]].
    cbn [with_url url created_at].
    split; [exact Ht|]. split; [exact Hi|]. split; [reflexivity|].
    split.
    + exists l'. split; [right; exact Hin' | auto].
    + exists l. split; [left; reflexivity|]. split; [exact He | reflexivity].
  - destruct (IH Hlater) as [Ht [Hi [Hc [[l' [Hin' Hl']] [e [Hine He]]]]]].
    split; [exact Ht|]. split; [exact Hi|]. split; [exact Hc|]. split.
    + exists l'. split; [right; exact Hin' | exact Hl'].
    + exists e. split; [right; exact Hine | exact He].
Qed.

Lemma paired_record_shape_witness :
  JsString.truthy
    (url (with_url sample_runtime
            (fromPlaylistLine sample_runtime "#EXTINF:-1,Beta")
            "http://host/beta.m3u8")) = true /\
  created_at (with_url sample_runtime
                (fromPlaylistLine sample_runtime "#EXTINF:-1,Beta")
                "http://host/beta.m3u8") = now sample_runtime.
Proof.
  destruct (paired_record_shape sample_runtime sample_lines
              (with_url sample_runtime
                 (fromPlaylistLine sample_runtime "#EXTINF:-1,Beta")
                 "http://host/beta.m3u8")
              (or_introl eq_refl))
    as [Htruthy [_ [Hcreated _]]].
  split; [exact Htruthy | exact Hcreated].
Defined.

Lemma pairing_fold_counts (rt : Runtime) (lines : list string)
  (channel : option ChannelEntry) (out : list ChannelEntry) :
  length (snd (fold_left (pairing_step rt) lines (channel, out)))
    <= length out + length (List.filter is_url_line lines) /\
  length (snd (fold_left (pairing_step rt) lines (channel, out)))
    <= length out + match channel with Some _ => 1 | None => 0 end
       + length (List.filter is_extinf lines).
Proof.
  revert channel out.
  induction lines as [|l rest IH]; intros channel out.
  - cbn. destruct channel; lia.
  - cbn [fold_left List.filter].
    assert (Hnot : is_extinf l = true -> is_url_line l = false).
    { unfold is_extinf, is_url_line, JsString.startsWith. intros He.
      destruct l as [|c r]; [discriminate He|].
      cbn [String.prefix] in He |- *.
      destruct (ascii_dec "#"%char c) as [<-|Hne]; [|discriminate He].
      destruct r; reflexivity. }
    unfold pairing_step at 2 4. fold (is_extinf l).
    destruct (is_extinf l) eqn:He.
    + rewrite (Hnot eq_refl).
      destruct (IH (Some (fromPlaylistLine rt l)) out) as [H1 H2].
      cbn [length]. destruct channel; split; lia.
    + destruct channel as [ch|].
      * fold (is_url_line l). destruct (is_url_line l) eqn:Hu.
        -- match goal with
           | |- context [fold_left _ rest (None, ?o)] =>
               destruct (IH None o) as [H1 H2]
           end.
           rewrite length_app in H1, H2. cbn [length] in *. split; lia.
        -- destruct (IH (Some ch) out) as [H1 H2]. split; lia.
      * destruct (IH None out) as [H1 H2].
        destruct (is_url_line l); cbn [length]; split; lia.
Qed.

(** X15: The pairing loop never pushes more records than the input has
    [#EXTINF:] lines, nor more than it has non-comment, non-blank lines. *)
Theorem pairing_loop_counts (rt : Runtime) (lines : list string) :
  length (pairing_loop rt lines) <= length (List.filter is_extinf lines) /\
  length (pairing_loop rt lines) <= length (List.filter is_url_line lines).
Proof.
  unfold pairing_loop.
  destruct (pairing_fold_counts rt lines None []) as [H1 H2].
  cbn [length] in H1, H2. split; lia.
Qed.

(** X16: The records of a playlist are those of its entries taken one by one:
    the lines before the first [#EXTINF:] line add nothing, and cutting the
    input in front of any [#EXTINF:] line cuts the result in two. *)
Theorem pairing_loop_by_entries (rt : Runtime) :
  (forall pre rest,
     Forall (fun l => is_extinf l = false) pre ->
     pairing_loop rt (pre ++ rest) = pairing_loop rt rest) /\
  (forall before e after,
     is_extinf e = true ->
     pairing_loop rt (before ++ e :: after)
     = pairing_loop rt before ++ pairing_loop rt (e :: after)).
Proof.
  split.
  - intros pre rest Hpre. rewrite !pairing_loop_spec.
    induction Hpre as [|l pre Hl _ IH]; [reflexivity|].
    cbn [app paired_records]. rewrite Hl. exact IH.
  - intros before e after He. unfold pairing_loop.
    rewrite fold_left_app. cbn [fold_left].
    rewrite !(pairing_step_extinf rt e _ He). cbn [snd].
    rewrite !pairing_fold. reflexivity.
Qed.

Lemma pairing_loop_by_entries_witness :
  pairing_loop sample_runtime sample_lines
  = pairing_loop sample_runtime ["#EXTM3U"; "#EXTINF:-1,Alpha"]
    ++ pairing_loop sample_runtime
         ["#EXTINF:-1,Beta"; "#EXTVLCOPT:network-caching=1000";
          "  http://host/beta.m3u8 "; "#EXTINF:-1,Gamma"; ""].
Proof.
  destruct (pairing_loop_by_entries sample_runtime) as [_ Hcut].
  exact (Hcut ["#EXTM3U"; "#EXTINF:-1,Alpha"] "#EXTINF:-1,Beta"
           ["#EXTVLCOPT:network-caching=1000"; "  http://host/beta.m3u8 ";
            "#EXTINF:-1,Gamma"; ""] eq_refl).
Defined.

(* ===================================================================== *)
(** ** Reconciliation: the shape of the merged set *)
(* ===================================================================== *)

Lemma playlist_key_nonempty (j : nat) (q : ChannelEntry) :
  playlist_key j q <> "".
Proof.
  unfold playlist_key, JsString.or_else.
  destruct (tvg_id q); [|discriminate].
  destruct (tvg_name q); discriminate.
Qed.

Lemma insertion_key_playlist (existing pl : list ChannelEntry) (j : nat)
  (q : ChannelEntry) :
  j < length pl ->
  insertion_key (playlist_refs existing pl) (length existing + j) q
  = playlist_key j q.
Proof.
  intros Hj. unfold insertion_key, playlist_refs, playlist_key.
  rewrite indexOf_seq by exact Hj. reflexivity.
Qed.

Lemma merged_upto_keys_nonempty (existing pl : list ChannelEntry) (i : nat) :
  i <= length pl ->
  forall k r, In (k, r) (channelMap (merged_upto i existing pl)) -> k <> "".
Proof.
  induction i as [|i IH]; intros Hi k r Hin.
  - destruct (indexed_inv existing pl) as [_ _ _ Hmap _ _].
    destruct (Hmap k r Hin) as [Hlt Hex]. rewrite Nat.add_0_r in Hlt.
    destruct (Hex Hlt) as [ex [_ [_ Hne]]]. exact Hne.
  - rewrite merged_upto_S in Hin by lia.
    unfold merge_step in Hin.
    destruct (heap (merged_upto i existing pl) !! (length existing + i))
      as [p|]; [|exact (IH ltac:(lia) k r Hin)].
    destruct (if JsString.truthy (tvg_id p)
              then map_get (tvg_id p) (channelMap (merged_upto i existing pl))
              else None) as [re|].
    + destruct (heap (merged_upto i existing pl) !! re);
        exact (IH ltac:(lia) k r Hin).
    + cbn [channelMap] in Hin.
      destruct (map_set_In _ _ _ _ _ Hin) as [Heq | Hold].
      * injection Heq as -> _.
        rewrite insertion_key_playlist by lia. apply playlist_key_nonempty.
      * exact (IH ltac:(lia) k r Hold).
Qed.

(** X17: The merged set is deduplicated by key: in the final map no key is
    empty, no key occurs twice and no object occurs twice; the set has one
    record per entry of the map, so it never has more records than the
    store held and the playlist paired together. *)
Theorem merged_set_deduplicated (existing pl : list ChannelEntry) :
  let st := reconcile existing pl in
  NoDup (map_keys (channelMap st)) /\
  (forall k, In k (map_keys (channelMap st)) -> k <> "") /\
  NoDup (map_values (channelMap st)) /\
  length (mergedChannels st) = length (channelMap st) /\
  length (mergedChannels st) <= length existing + length pl.
Proof.
  intros st. pose proof (reconcile_inv existing pl) as Hinv.
  destruct Hinv as [Hlen Hpend Hid Hmap Hk Hv]. fold st in Hlen, Hmap, Hk, Hv.
  assert (Hsize : length (mergedChannels st) = length (channelMap st)).
  { apply (mergedChannels_length existing pl (length pl)); [lia|].
    apply reconcile_inv. }
  split; [exact Hk|]. split.
  { intros k Hin. unfold map_keys in Hin. apply in_map_iff in Hin.
    destruct Hin as [[k' r] [Hk' Hin]]. cbn in Hk'. subst k'.
    unfold st in Hin. rewrite reconcile_merged_upto in Hin.
    exact (merged_upto_keys_nonempty existing pl (length pl) ltac:(lia) k r Hin). }
  split; [exact Hv|]. split; [exact Hsize|].
  rewrite Hsize.
  replace (length (channelMap st)) with (length (map_values (channelMap st)))
    by (unfold map_values; apply length_map).
  replace (length existing + length pl)
    with (length (seq 0 (length existing + length pl)))
    by apply length_seq.
  apply NoDup_incl_length.
  - apply NoDup_ListNoDup. exact Hv.
  - intros r Hin. apply in_seq. apply map_values_In in Hin.
    destruct Hin as [k Hin]. pose proof (proj1 (Hmap k r Hin)). lia.
Qed.

Lemma index_step_other (h : list ChannelEntry) (m : ChannelMap) (r : nat)
  (k : string) :
  (forall ex, h !! r = Some ex -> tvg_id ex <> k) ->
  map_get k (index_step h m r) = map_get k m.
Proof.
  intros Hne. unfold index_step. destruct (h !! r) as [ex|]; [|reflexivity].
  destruct (JsString.truthy (tvg_id ex)); [|reflexivity].
  apply map_get_set_ne. apply Hne. reflexivity.
Qed.

Lemma index_fold_other (h : list ChannelEntry) (rs : list nat)
  (m : ChannelMap) (k : string) :
  (forall r ex, In r rs -> h !! r = Some ex -> tvg_id ex <> k) ->
  map_get k (fold_left (index_step h) rs m) = map_get k m.
Proof.
  revert m. induction rs as [|r rs IH]; intros m Hne; [reflexivity|].
  cbn [fold_left]. rewrite IH.
  - apply index_step_other. intros ex. apply Hne. left. reflexivity.
  - intros r' ex Hin. apply Hne. right. exact Hin.
Qed.

Lemma indexed_get (existing pl : list ChannelEntry) (r : nat)
  (ex : ChannelEntry) :
  existing !! r = Some ex -> tvg_id ex <> "" ->
  (forall r' ex', r < r' -> existing !! r' = Some ex' ->
                  tvg_id ex' <> tvg_id ex) ->
  map_get (tvg_id ex) (channelMap (indexed existing pl)) = Some r.
Proof.
  intros Hex Hne Hlast. pose proof (lookup_lt_Some _ _ _ Hex) as Hr.
  unfold indexed, existing_refs. cbn [channelMap].
  replace (length existing) with (r + S (length existing - S r)) at 1 by lia.
  rewrite seq_app, fold_left_app. cbn [seq fold_left plus].
  rewrite index_fold_other.
  - unfold index_step. rewrite (lookup_app_l _ _ _ Hr), Hex, (truthy_ne _ Hne).
    apply map_get_set_eq.
  - intros r' ex' Hin Hex'. apply in_seq in Hin.
    apply (Hlast r' ex'); [lia|].
    rewrite lookup_app_l in Hex' by lia. exact Hex'.
Qed.

(** X18: An existing record with a [tvg_id] that no later existing record
    shares, and that no playlist record carries or is stored under, comes
    through the reconciliation unchanged and is part of the merged set. *)
Theorem unmatched_existing_kept (existing pl : list ChannelEntry) (r : nat)
  (ex : ChannelEntry) :
  existing !! r = Some ex -> tvg_id ex <> "" ->
  (forall r' ex', r < r' -> existing !! r' = Some ex' ->
                  tvg_id ex' <> tvg_id ex) ->
  (forall j q, pl !! j = Some q ->
               tvg_id q <> tvg_id ex /\ playlist_key j q <> tvg_id ex) ->
  map_get (tvg_id ex) (channelMap (reconcile existing pl)) = Some r /\
  heap (reconcile existing pl) !! r = Some ex /\
  In ex (mergedChannels (reconcile existing pl)).
Proof.
  intros Hex Hne Hlast Hpl.
  pose proof (lookup_lt_Some _ _ _ Hex) as Hr.
  destruct (later_steps_elsewhere existing pl 0 (tvg_id ex) r ex)
    with (d := length pl) as [Hg Hh].
  - intros j q _ Hq. exact (Hpl j q Hq).
  - exact (indexed_get existing pl r ex Hex Hne Hlast).
  - change (merged_upto 0 existing pl) with (indexed existing pl).
    cbn [indexed heap]. rewrite lookup_app_l by exact Hr. exact Hex.
  - lia.
  - cbn [plus] in Hg, Hh. rewrite <- reconcile_merged_upto in Hg, Hh.
    split; [exact Hg|]. split; [exact Hh|].
    unfold mergedChannels. apply list_elem_of_In, list_elem_of_omap.
    exists r. split; [|exact Hh].
    apply list_elem_of_In. unfold map_values. apply in_map_iff.
    exists (tvg_id ex, r). split; [reflexivity|].
    apply map_get_In. exact Hg.
Qed.

Lemma unmatched_existing_kept_witness :
  In sample_existing_abc
    (mergedChannels
       (reconcile [sample_existing_no_id; sample_existing_abc]
          [sample_playlist_new; sample_playlist_anonymous])).
Proof.
  destruct (unmatched_existing_kept
              [sample_existing_no_id; sample_existing_abc]
              [sample_playlist_new; sample_playlist_anonymous]
              1 sample_existing_abc eq_refl ltac:(discriminate))
    as [_ [_ Hin]].
  - intros r' ex' Hlt Hex'. destruct r' as [|[|r']]; [lia | lia |].
    discriminate Hex'.
  - intros j q Hq. destruct j as [|[|j]]; [| | discriminate Hq];
      injection Hq as <-; split; discriminate.
  - exact Hin.
Defined.

(* ===================================================================== *)
(** ** Reconciliation: records whose keys are all distinct *)
(* ===================================================================== *)

Lemma map_keys_app (m1 m2 : ChannelMap) :
  map_keys (m1 ++ m2) = map_keys m1 ++ map_keys m2.
Proof. unfold map_keys. apply map_app. Qed.

Lemma map_values_app (m1 m2 : ChannelMap) :
  map_values (m1 ++ m2) = map_values m1 ++ map_values m2.
Proof. unfold map_values. apply map_app. Qed.

Lemma id_entries_keys (j : nat) (l : list ChannelEntry) :
  map_keys (id_entries_from j l) = map tvg_id l.
Proof.
  revert j. induction l as [|x l IH]; intros j; [reflexivity|].
  cbn [id_entries_from]. unfold map_keys in *. cbn [map fst].
  rewrite IH. reflexivity.
Qed.

Lemma id_entries_values (j : nat) (l : list ChannelEntry) :
  map_values (id_entries_from j l) = seq j (length l).
Proof.
  revert j. induction l as [|x l IH]; intros j; [reflexivity|].
  cbn [id_entries_from length seq]. unfold map_values in *. cbn [map snd].
  rewrite IH. reflexivity.
Qed.

Lemma playlist_entries_keys (j base : nat) (l : list ChannelEntry) :
  map_keys (playlist_entries_from j base l) = playlist_keys_from j l.
Proof.
  revert j. induction l as [|x l IH]; intros j; [reflexivity|].
  cbn [playlist_entries_from playlist_keys_from]. unfold map_keys in *.
  cbn [map fst]. rewrite IH. reflexivity.
Qed.

Lemma playlist_entries_values (j base : nat) (l : list ChannelEntry) :
  map_values (playlist_entries_from j base l) = seq (base + j) (length l).
Proof.
  revert j. induction l as [|x l IH]; intros j; [reflexivity|].
  cbn [playlist_entries_from length seq]. unfold map_values in *.
  cbn [map snd]. rewrite IH. do 2 f_equal. lia.
Qed.

Lemma playlist_entries_snoc (j base : nat) (l : list ChannelEntry)
  (q : ChannelEntry) :
  playlist_entries_from j base (l ++ [q])
  = playlist_entries_from j base l
    ++ [(playlist_key (j + length l) q, base + (j + length l))].
Proof.
  revert j. induction l as [|x l IH]; intros j.
  - cbn. rewrite Nat.add_0_r. reflexivity.
  - cbn [app playlist_entries_from length]. rewrite IH.
    replace (S j + length l) with (j + S (length l)) by lia. reflexivity.
Qed.

Lemma playlist_keys_lookup (j : nat) (pl : list ChannelEntry) (i : nat)
  (q : ChannelEntry) :
  pl !! i = Some q ->
  playlist_keys_from j pl !! i = Some (playlist_key (j + i) q).
Proof.
  revert j i. induction pl as [|x pl IH]; intros j i Hq; [discriminate|].
  destruct i as [|i]; cbn [playlist_keys_from].
  - injection Hq as ->. rewrite Nat.add_0_r. reflexivity.
  - change ((playlist_key j x :: playlist_keys_from (S j) pl) !! S i)
      with (playlist_keys_from (S j) pl !! i).
    rewrite (IH (S j) i Hq). do 2 f_equal. lia.
Qed.

Lemma playlist_keys_take (j i : nat) (pl : list ChannelEntry) :
  playlist_keys_from j (take i pl) = take i (playlist_keys_from j pl).
Proof.
  revert j i. induction pl as [|x pl IH]; intros j i.
  - destruct i; reflexivity.
  - destruct i as [|i]; [reflexivity|].
    cbn [take playlist_keys_from]. rewrite IH. reflexivity.
Qed.

Lemma fresh_key (ids keys : list string) (i : nat) (k : string) :
  NoDup (ids ++ keys) -> keys !! i = Some k ->
  ~ In k (ids ++ take i keys).
Proof.
  intros Hnd Hk Hin. apply NoDup_app in Hnd.
  destruct Hnd as [_ [Hdisj Hkeys]].
  apply in_app_or in Hin. destruct Hin as [Hin | Hin].
  - apply (Hdisj k); apply list_elem_of_In; [exact Hin|].
    apply list_elem_of_In, list_elem_of_lookup. eauto.
  - apply list_elem_of_In, list_elem_of_lookup in Hin.
    destruct Hin as [i' Hi'].
    pose proof (lookup_lt_Some _ _ _ Hi') as Hlt.
    rewrite length_take in Hlt.
    rewrite lookup_take_lt in Hi' by lia.
    pose proof (proj1 (NoDup_alt keys) Hkeys i i' k Hk Hi'). lia.
Qed.

Lemma index_fold_entries (l : list ChannelEntry) (j : nat) (m : ChannelMap)
  (h : list ChannelEntry) :
  (forall i x, l !! i = Some x -> h !! (j + i) = Some x) ->
  Forall (fun x => tvg_id x <> "") l ->
  NoDup (map_keys m ++ map tvg_id l) ->
  fold_left (index_step h) (seq j (length l)) m = m ++ id_entries_from j l.
Proof.
  revert j m. induction l as [|x l IH]; intros j m Hh Hids Hnd.
  - cbn. rewrite app_nil_r. reflexivity.
  - cbn [length seq fold_left id_entries_from].
    apply Forall_cons in Hids. destruct Hids as [Hx Hids].
    assert (Hstep : index_step h m j = m ++ [(tvg_id x, j)]).
    { unfold index_step. specialize (Hh 0 x eq_refl).
      rewrite Nat.add_0_r in Hh. rewrite Hh, (truthy_ne _ Hx).
      apply map_set_new_app. apply map_get_None_keys.
      intros Hin. apply NoDup_app in Hnd. destruct Hnd as [_ [Hdisj _]].
      apply (Hdisj (tvg_id x)); apply list_elem_of_In; [exact Hin|].
      left. reflexivity. }
    rewrite Hstep, IH.
    + rewrite <- app_assoc. reflexivity.
    + intros i y Hy. replace (S j + i) with (j + S i) by lia.
      apply Hh. exact Hy.
    + exact Hids.
    + rewrite map_keys_app. cbn [map_keys map fst].
      rewrite <- app_assoc. exact Hnd.
Qed.

Lemma omap_lookup_seq (pre l post : list ChannelEntry) :
  omap (fun r => (pre ++ l ++ post) !! r) (seq (length pre) (length l)) = l.
Proof.
  revert pre. induction l as [|x l IH]; intros pre; [reflexivity|].
  cbn [length seq omap list_omap].
  rewrite lookup_app_r by lia. rewrite Nat.sub_diag. cbn [app lookup list_lookup].
  f_equal.
  specialize (IH (pre ++ [x])).
  rewrite length_app in IH. cbn [length] in IH.
  replace (length pre + 1) with (S (length pre)) in IH by lia.
  rewrite <- app_assoc in IH. exact IH.
Qed.

Lemma reconcile_distinct_keys (existing pl : list ChannelEntry) :
  Forall (fun x => tvg_id x <> "") existing ->
  NoDup (map tvg_id existing ++ playlist_keys pl) ->
  forall i, i <= length pl ->
  merged_upto i existing pl =
  {| heap := existing ++ pl;
     channelMap := id_entries_from 0 existing
                   ++ playlist_entries_from 0 (length existing) (take i pl) |}.
Proof.
  intros Hids Hnd.
  assert (Hindex : channelMap (indexed existing pl) = id_entries_from 0 existing).
  { unfold indexed, existing_refs. cbn [channelMap].
    rewrite (index_fold_entries existing 0 []); [reflexivity | | exact Hids |].
    - intros i x Hx. cbn [plus]. rewrite lookup_app_l; [exact Hx|].
      eapply lookup_lt_Some. exact Hx.
    - cbn [map_keys map app]. apply NoDup_app in Hnd. tauto. }
  induction i as [|i IH]; intros Hi.
  - unfold merged_upto. cbn [take fold_left playlist_entries_from].
    rewrite app_nil_r, <- Hindex. reflexivity.
  - rewrite merged_upto_S by lia. rewrite IH by lia.
    destruct (lookup_lt_is_Some_2 pl i ltac:(lia)) as [p Hp].
    unfold merge_step. cbn [heap channelMap].
    rewrite lookup_app_r by lia.
    replace (length existing + i - length existing) with i by lia.
    rewrite Hp.
    assert (Hfresh : map_get (playlist_key i p)
                       (id_entries_from 0 existing ++
                        playlist_entries_from 0 (length existing) (take i pl))
                     = None).
    { apply map_get_None_keys.
      rewrite map_keys_app, id_entries_keys, playlist_entries_keys,
              playlist_keys_take.
      apply (fresh_key _ _ i); [exact Hnd|].
      exact (playlist_keys_lookup 0 pl i p Hp). }
    assert (Hnone : (if JsString.truthy (tvg_id p)
                     then map_get (tvg_id p)
                            (id_entries_from 0 existing ++
                             playlist_entries_from 0 (length existing)
                               (take i pl))
                     else None) = None).
    { destruct (JsString.truthy (tvg_id p)) eqn:Ht; [|reflexivity].
      assert (Hk : playlist_key i p = tvg_id p).
      { unfold playlist_key, JsString.or_else. rewrite Ht. reflexivity. }
      rewrite <- Hk. exact Hfresh. }
    rewrite Hnone, insertion_key_playlist by lia.
    rewrite (map_set_new_app _ _ _ Hfresh).
    rewrite (take_S_r _ _ _ Hp), playlist_entries_snoc.
    rewrite length_take, Nat.min_l by lia.
    rewrite <- app_assoc. reflexivity.
Qed.

Lemma reconcile_append (existing pl : list ChannelEntry) :
  Forall (fun x => tvg_id x <> "") existing ->
  NoDup (map tvg_id existing ++ playlist_keys pl) ->
  mergedChannels (reconcile existing pl) = existing ++ pl /\
  map_keys (channelMap (reconcile existing pl))
    = map tvg_id existing ++ playlist_keys pl.
Proof.
  intros Hids Hnd.
  rewrite reconcile_merged_upto,
    (reconcile_distinct_keys existing pl Hids Hnd (length pl)) by lia.
  rewrite take_ge by lia. split.
  - unfold mergedChannels. cbn [heap channelMap].
    rewrite map_values_app, id_entries_values, playlist_entries_values.
    rewrite omap_app. f_equal.
    + exact (omap_lookup_seq [] existing pl).
    + rewrite Nat.add_0_r.
      pose proof (omap_lookup_seq existing pl []) as H.
      rewrite app_nil_r in H. exact H.
  - cbn [channelMap].
    rewrite map_keys_app, id_entries_keys, playlist_entries_keys. reflexivity.
Qed.

(** X19: When every stored record has a non-empty [tvg_id] and these
    identifiers and the keys of the playlist records are pairwise distinct,
    the reconciliation changes nothing and drops nothing: the merged set is
    the stored records followed by the playlist records, each in its
    order. *)
Theorem distinct_keys_append (existing pl : list ChannelEntry) :
  Forall (fun x => tvg_id x <> "") existing ->
  NoDup (map tvg_id existing ++ playlist_keys pl) ->
  mergedChannels (reconcile existing pl) = existing ++ pl /\
  map_keys (channelMap (reconcile existing pl))
    = map tvg_id existing ++ playlist_keys pl.
Proof. apply reconcile_append. Qed.

Lemma distinct_keys_append_witness :
  mergedChannels
    (reconcile [sample_existing_abc]
       [sample_playlist_new; sample_playlist_anonymous])
  = [sample_existing_abc; sample_playlist_new; sample_playlist_anonymous].
Proof.
  destruct (distinct_keys_append [sample_existing_abc]
              [sample_playlist_new; sample_playlist_anonymous]) as [H _].
  - repeat constructor. discriminate.
  - apply NoDup_ListNoDup. repeat constructor; cbn; intuition discriminate.
  - exact H.
Defined.

(** X20: A playlist fill that pairs no record, run on a store whose records
    have pairwise distinct non-empty [tvg_id]s, rewrites the store with the
    same records in the same order. *)
Theorem playlist_fill_without_entries (rt : Runtime) (co : Collaborators)
  (force : bool) (w : World) (playlist content : string) :
  playlist_source rt = Some playlist ->
  obtained co force "playlist.m3u" playlist (state w) = Some content ->
  parsePlaylist rt content = [] ->
  Forall (fun x => tvg_id x <> "") (store_channels (state w)) ->
  NoDup (map tvg_id (store_channels (state w))) ->
  store_channels (state (exec (fillDbChannelsFromPlaylist rt co force) w))
  = store_channels (state w).
Proof.
  intros Hsrc Hsome Hnil Hids Hnd.
  rewrite (fillDbChannelsFromPlaylist_store rt co force w playlist content
             Hsrc Hsome).
  rewrite Hnil.
  destruct (reconcile_append (store_channels (state w)) []) as [Hm _].
  - exact Hids.
  - cbn [playlist_keys playlist_keys_from]. rewrite app_nil_r. exact Hnd.
  - rewrite Hm, app_nil_r. destruct (store_channels (state w)); reflexivity.
Qed.

Lemma playlist_fill_without_entries_witness :
  store_channels
    (state (exec (fillDbChannelsFromPlaylist sample_runtime
                    cached_collaborators false) sample_world_with_ids))
  = [sample_existing_abc].
Proof.
  apply (playlist_fill_without_entries sample_runtime cached_collaborators
           false sample_world_with_ids "http://epg.example/playlist.m3u"
           "#EXTM3U" eq_refl eq_refl eq_refl).
  - repeat constructor. discriminate.
  - apply NoDup_ListNoDup. repeat constructor. intros [].
Defined.

Lemma anonymous_key (j : nat) (q : ChannelEntry) :
  anonymous q = true ->
  playlist_key j q = "playlist_" +:+ JsString.of_Z (Z.of_nat j).
Proof.
  unfold anonymous, playlist_key, JsString.or_else. intros H.
  apply andb_true_iff in H. destruct H as [H1 H2].
  destruct (JsString.truthy (tvg_id q)); [discriminate|].
  destruct (JsString.truthy (tvg_name q)); [discriminate | reflexivity].
Qed.

Lemma anonymous_keys_from (j : nat) (pl : list ChannelEntry) (k : string) :
  Forall (fun q => anonymous q = true) pl ->
  In k (playlist_keys_from j pl) ->
  exists j', j <= j' /\ k = "playlist_" +:+ JsString.of_Z (Z.of_nat j').
Proof.
  intros Hall. revert j. induction Hall as [|q pl Hq _ IH]; intros j Hin.
  - destruct Hin.
  - cbn [playlist_keys_from] in Hin. destruct Hin as [<- | Hin].
    + exists j. split; [lia | apply anonymous_key; exact Hq].
    + destruct (IH (S j) Hin) as [j' [Hj' Hk]]. exists j'. split; [lia | exact Hk].
Qed.

Lemma synthetic_key_inj (i j : nat) :
  "playlist_" +:+ JsString.of_Z (Z.of_nat i)
  = "playlist_" +:+ JsString.of_Z (Z.of_nat j) -> i = j.
Proof.
  cbn [String.append]. intros H. injection H as H.
  apply of_Z_inj in H. lia.
Qed.

Lemma anonymous_keys_NoDup (j : nat) (pl : list ChannelEntry) :
  Forall (fun q => anonymous q = true) pl ->
  NoDup (playlist_keys_from j pl).
Proof.
  intros Hall. revert j. induction Hall as [|q pl Hq Hall IH]; intros j.
  - apply NoDup_nil_2.
  - cbn [playlist_keys_from]. apply NoDup_cons. split; [|apply IH].
    intros Hin. apply list_elem_of_In in Hin.
    destruct (anonymous_keys_from (S j) pl _ Hall Hin) as [j' [Hj' Hk]].
    rewrite (anonymous_key j q Hq) in Hk.
    apply synthetic_key_inj in Hk. lia.
Qed.

(** X21: Playlist records that have neither [tvg_id] nor [tvg_name] never
    collide with one another: their synthetic keys are pairwise distinct,
    so a batch made of such records only, reconciled against an empty
    store, is kept whole and in order. *)
Theorem anonymous_batch_kept (pl : list ChannelEntry) :
  Forall (fun q => anonymous q = true) pl ->
  NoDup (playlist_keys pl) /\
  mergedChannels (reconcile [] pl) = pl.
Proof.
  intros Hall.
  pose proof (anonymous_keys_NoDup 0 pl Hall) as Hnd.
  split; [exact Hnd|].
  destruct (reconcile_append [] pl) as [Hm _].
  - constructor.
  - exact Hnd.
  - exact Hm.
Qed.

Lemma anonymous_batch_kept_witness :
  mergedChannels (reconcile [] sample_anonymous_batch) = sample_anonymous_batch.
Proof.
  destruct (anonymous_batch_kept sample_anonymous_batch) as [_ H].
  - repeat constructor.
  - exact H.
Defined.

(* ===================================================================== *)
(** ** The refresh steps: outcomes and what they leave alone *)
(* ===================================================================== *)

(** X22: The deprecated [fillDbChannels] never keeps the prior channel records:
    it clears the store before it reads anything, so afterwards the store
    holds exactly the records paired from the content it ends up with, and
    nothing when there is no content.  A forced run, the default, takes
    its content from the fetcher alone.  The programme store and the files
    are left alone. *)
Theorem fillDbChannels_outcome (rt : Runtime) (co : Collaborators)
  (force : bool) (w : World) :
  let s1 := set_channels [] (state w) in
  let w' := exec (fillDbChannels rt co force) w in
  store_channels (state w')
    = match obtained co force "playlist.m3u" (playlist_argument rt) s1 with
      | Some content => parsePlaylist rt content
      | None => []
      end /\
  (force = true ->
   store_channels (state w')
     = match fetchWithRetry co (playlist_argument rt) "playlist.m3u" s1 with
       | Some content => parsePlaylist rt content
       | None => []
       end) /\
  store_programmes (state w') = store_programmes (state w) /\
  fs_files (state w') = fs_files (state w) /\
  exists t, trace w' = trace w ++ EvClearChannels :: t.
Proof.
  intros s1 w'. subst s1 w'. unfold obtained, fillDbChannels. world_simpl.
  unfold set_channels. world_simpl.
  repeat (world_case; world_simpl).
  all: repeat split; try reflexivity; try (intros; congruence);
    try (intros ->; repeat match goal with
                           | H : _ = _ |- _ => rewrite H
                           end; reflexivity).
  all: eexists; repeat rewrite <- app_assoc; reflexivity.
Qed.

(** X23: A run of [fillDbProgrammes] on stale or forced data that obtains a
    content and a cache path calls the write of the content to that path.
    When the write resolves, the file holds the content and the programme
    store is left with exactly the programmes parsed from it, so an empty
    parse result empties the store.  When the write rejects, nothing
    catches the rejection: the run ends with it, the programme store stays
    cleared, and nothing is parsed or inserted.  The channel store is
    unchanged in both cases. *)
Theorem fillDbProgrammes_outcome (rt : Runtime) (co : Collaborators)
  (force : bool) (w : World) (content path : string) :
  isProgrammeDataStale co (state w) || force = true ->
  obtained co force "xmltv.xml" (XMLTV (config rt))
    (set_programmes [] (state w)) = Some content ->
  getCachedFilePath co "xmltv.xml" (set_programmes [] (state w)) = Some path ->
  let w' := exec (fillDbProgrammes rt co force) w in
  (writeFileOutcome co path content (set_programmes [] (state w)) = Written ->
   outcome (fillDbProgrammes rt co force) w = Returned tt /\
   store_programmes (state w')
     = parseXMLTV rt (<[path := content]> (fs_files (state w))) path /\
   fs_files (state w') = <[path := content]> (fs_files (state w)) /\
   store_channels (state w') = store_channels (state w)) /\
  (forall remains,
     writeFileOutcome co path content (set_programmes [] (state w))
       = Rejected remains ->
     outcome (fillDbProgrammes rt co force) w = Thrown "fs.writeFile rejected" /\
     store_programmes (state w') = [] /\
     store_channels (state w') = store_channels (state w) /\
     exists t, trace w' = trace w ++ t /\
               forallb (fun e => negb (is_parse_or_add e)) t = true).
Proof.
  intros Hgo Hcontent Hpath w'. subst w'. unfold obtained in Hcontent.
  unfold fillDbProgrammes, writeFile. world_simpl. rewrite Hgo. world_simpl.
  unfold set_programmes in *. world_simpl.
  split.
  - intros Hw.
    repeat (world_case; world_simpl); try discriminate; try congruence.
    all: repeat match goal with
           | H : Some _ = Some _ |- _ => injection H as H; subst
           end.
    all: repeat split; try reflexivity; congruence.
  - intros remains Hw.
    repeat (world_case; world_simpl); try discriminate; try congruence.
    all: repeat match goal with
           | H : Some _ = Some _ |- _ => injection H as H; subst
           end.
    all: split; [reflexivity|]; split; [reflexivity|];
      split; [reflexivity|]; trace_ext.
Qed.

Lemma fillDbProgrammes_outcome_witness :
  length
    (store_programmes
       (state (exec (fillDbProgrammes sample_runtime online_collaborators false)
                 sample_world))) = 2 /\
  store_programmes
    (state (exec (fillDbProgrammes sample_runtime readonly_collaborators false)
              sample_world)) = [].
Proof.
  split.
  - destruct (fillDbProgrammes_outcome sample_runtime online_collaborators
                false sample_world "<tv>sample</tv>" "/cache/xmltv.xml"
                eq_refl eq_refl eq_refl) as [Hok _].
    destruct (Hok eq_refl) as [_ [Hstore _]].
    rewrite Hstore. vm_compute. reflexivity.
  - destruct (fillDbProgrammes_outcome sample_runtime readonly_collaborators
                false sample_world "<tv>sample</tv>" "/cache/xmltv.xml"
                eq_refl eq_refl eq_refl) as [_ Hrej].
    destruct (Hrej None eq_refl) as [_ [Hstore _]]. exact Hstore.
Defined.

(** X24: What the fill steps never touch: the playlist fill leaves the
    programme store and the files alone, [fillDbProgrammes] leaves the
    channel store alone, and the XMLTV fill changes no file other than the
    one at the cache path of [xmltv.xml]. *)
Theorem fill_steps_frame (rt : Runtime) (co : Collaborators) (force : bool)
  (w : World) :
  (store_programmes (state (exec (fillDbChannelsFromPlaylist rt co force) w))
     = store_programmes (state w) /\
   fs_files (state (exec (fillDbChannelsFromPlaylist rt co force) w))
     = fs_files (state w)) /\
  store_channels (state (exec (fillDbProgrammes rt co force) w))
    = store_channels (state w) /\
  (forall p, getCachedFilePath co "xmltv.xml" (state w) <> Some p ->
     fs_files (state (exec (fillDbFromXMLTV rt co force) w)) !! p
     = fs_files (state w) !! p).
Proof.
  split; [|split].
  - unfold fillDbChannelsFromPlaylist. world_simpl.
    repeat (world_case; world_simpl); split; reflexivity.
  - unfold fillDbProgrammes. world_simpl.
    repeat (world_case; world_simpl); reflexivity.
  - intros p Hp. unfold fillDbFromXMLTV. world_simpl.
    repeat (world_case; world_simpl); try reflexivity.
    all: apply lookup_insert_ne; congruence.
Qed.

(** X25: When the XMLTV fill gets as far as parsing, the content it obtained is
    what the file at the cache path holds afterwards, and each store is
    replaced by the parsed records of its kind when there are any (replaced,
    not extended) and left as it was when there are none. *)
Theorem fillDbFromXMLTV_outcome (rt : Runtime) (co : Collaborators)
  (force : bool) (w : World) (d : XMLTVData) :
  xmltv_parsed rt co force (state w) = Some d ->
  let w' := exec (fillDbFromXMLTV rt co force) w in
  store_channels (state w')
    = (if nonempty (channels d) then channels d
       else store_channels (state w)) /\
  store_programmes (state w')
    = (if nonempty (programmes d) then programmes d
       else store_programmes (state w)) /\
  exists content path,
    obtained co force "xmltv.xml" (XMLTV (config rt)) (state w) = Some content /\
    getCachedFilePath co "xmltv.xml" (state w) = Some path /\
    fs_files (state w') = <[path := content]> (fs_files (state w)) /\
    fs_files (state w') !! path = Some content /\
    d = parseXMLTVFull rt (fs_files (state w')) path.
Proof.
  intros Hd w'. subst w'. unfold xmltv_parsed, obtained in *.
  unfold fillDbFromXMLTV. world_simpl.
  repeat (world_case; world_simpl); try discriminate.
  all: injection Hd as <-.
  all: try congruence.
  all: split; [reflexivity|]; split; [reflexivity|].
  all: do 2 eexists; split; [reflexivity|]; split; [reflexivity|].
  all: split; [reflexivity|]; split; [apply lookup_insert_eq | reflexivity].
Qed.

Lemma fillDbFromXMLTV_outcome_witness :
  map tvg_id
    (store_channels
       (state (exec (fillDbFromXMLTV sample_runtime online_collaborators false)
                 sample_world))) = ["drwho.uk"].
Proof.
  destruct (fillDbFromXMLTV_outcome sample_runtime online_collaborators false
              sample_world
              (parseXMLTVFull sample_runtime
                 (<["/cache/xmltv.xml" := "<tv>sample</tv>"]>
                    (fs_files (state sample_world))) "/cache/xmltv.xml")
              eq_refl)
    as [Hstore _].
  rewrite Hstore. vm_compute. reflexivity.
Defined.

(** X26: When a fill step fetches: with a playlist source configured, an
    unforced playlist fill that finds a cached playlist never calls the
    fetcher, and a forced one always calls it, right after reading the
    cache; an unforced XMLTV fill on stale data with a cached document
    never calls the fetcher, and a forced XMLTV fill always calls it. *)
Theorem fetch_discipline (rt : Runtime) (co : Collaborators) (w : World) :
  (forall playlist,
     playlist_source rt = Some playlist ->
     (forall c, getCachedFile co "playlist.m3u" (state w) = Some c ->
        exists t,
          trace (exec (fillDbChannelsFromPlaylist rt co false) w)
            = trace w ++ t /\
          forallb (fun e => negb (is_fetch e)) t = true) /\
     (exists t,
        trace (exec (fillDbChannelsFromPlaylist rt co true) w)
        = trace w ++ EvGetCachedFile "playlist.m3u"
            :: EvFetchWithRetry playlist "playlist.m3u" :: t)) /\
  (forall c, getCachedFile co "xmltv.xml" (state w) = Some c ->
     exists t,
       trace (exec (fillDbFromXMLTV rt co false) w) = trace w ++ t /\
       forallb (fun e => negb (is_fetch e)) t = true) /\
  (exists t,
     trace (exec (fillDbFromXMLTV rt co true) w)
     = trace w ++ EvIsProgrammeDataStale :: EvGetCachedFile "xmltv.xml"
         :: EvFetchWithRetry (XMLTV (config rt)) "xmltv.xml" :: t).
Proof.
  split; [|split].
  - intros playlist Hsrc. unfold playlist_source in Hsrc.
    unfold fillDbChannelsFromPlaylist.
    destruct (PLAYLIST (config rt)) as [pl|]; [|discriminate].
    destruct (JsString.truthy pl); [|discriminate].
    injection Hsrc as ->. world_simpl. split.
    + intros c Hc. rewrite Hc. world_simpl.
      repeat (world_case; world_simpl); trace_ext.
    + repeat (world_case; world_simpl).
      all: rewrite ?orb_true_r in *; try discriminate.
      all: eexists; repeat rewrite <- app_assoc; reflexivity.
  - intros c Hc. unfold fillDbFromXMLTV. world_simpl.
    destruct (isProgrammeDataStale co (state w)); world_simpl;
      [rewrite Hc; world_simpl|];
      repeat (world_case; world_simpl); trace_ext.
  - unfold fillDbFromXMLTV. world_simpl. rewrite andb_false_r. world_simpl.
    repeat (world_case; world_simpl).
    all: rewrite ?orb_true_r in *; try discriminate.
    all: eexists; repeat rewrite <- app_assoc; reflexivity.
Qed.

Lemma fetch_discipline_witness :
  exists t,
    trace (exec (fillDbChannelsFromPlaylist sample_runtime
                   cached_collaborators false) sample_world)
      = trace sample_world ++ t /\
    forallb (fun e => negb (is_fetch e)) t = true.
Proof.
  destruct (fetch_discipline sample_runtime cached_collaborators sample_world)
    as [Hplaylist _].
  destruct (Hplaylist "http://epg.example/playlist.m3u" eq_refl)
    as [Hcached _].
  exact (Hcached "#EXTM3U" eq_refl).
Defined.
